(** * cobraman: man page generation for cobra command trees

    A shallow embedding of [man/man.go] (package [man]) and the
    properties of its page generator: the flag formatter, the
    cross-reference builder, the page model assembler and the tree
    walker that writes one page per command. *)

From stdpp Require Import base option list strings gmap sorting.
From Stdlib Require Import Ascii String ZArith Lia.

Local Open Scope string_scope.
Local Open Scope list_scope.

(** ** Go strings

    A Go string is a sequence of bytes; so is a [string] here. *)

Module GoString.

(** The characters that the Go source writes as escapes. *)
Definition nl : string := String (ascii_of_nat 10) EmptyString.
Definition dq : string := String (ascii_of_nat 34) EmptyString.
Definition space : ascii := ascii_of_nat 32.
Definition percent : ascii := ascii_of_nat 37.

(** [s != ""] and [len(s) > 0]. *)
Definition nonEmpty (s : string) : bool :=
  match s with
  | EmptyString => false
  | String _ _ => true
  end.

(** [strings.Replace(s, old, new, -1)] for a one byte [old]. *)
Fixpoint Replace (s : string) (old : ascii) (new : string) : string :=
  match s with
  | EmptyString => EmptyString
  | String c rest =>
      if Ascii.eqb c old then new +:+ Replace rest old new
      else String c (Replace rest old new)
  end.

(** Whether byte [c] occurs in [cutset]. *)
Fixpoint inCutset (c : ascii) (cutset : string) : bool :=
  match cutset with
  | EmptyString => false
  | String d rest => Ascii.eqb c d || inCutset c rest
  end.

(** [strings.TrimRight(s, cutset)]: [s] without its longest suffix made
    of bytes of [cutset]. *)
Fixpoint TrimRight (s : string) (cutset : string) : string :=
  match s with
  | EmptyString => EmptyString
  | String c rest =>
      match TrimRight rest cutset with
      | EmptyString => if inCutset c cutset then EmptyString else String c EmptyString
      | kept => String c kept
      end
  end.

(** [strings.Join(elems, sep)]. *)
Definition Join (elems : list string) (sep : string) : string :=
  String.concat sep elems.

(** The [%s] fragment of [fmt.Sprintf] over string operands: plain
    bytes, [%s] with an operand left for it, and [%%]. Every other
    directive, a missing operand and operands left over are outside
    the fragment ([None]). *)
Fixpoint sprintf_s (format : string) (args : list string) : option string :=
  match format with
  | EmptyString =>
      match args with
      | [] => Some EmptyString
      | _ :: _ => None
      end
  | String c rest =>
      if Ascii.eqb c percent then
        match rest with
        | EmptyString => None
        | String v rest' =>
            if Ascii.eqb v "s" then
              match args with
              | a :: args' => (String.append a) <$> sprintf_s rest' args'
              | [] => None
              end
            else if Ascii.eqb v percent then
              (String percent) <$> sprintf_s rest' args
            else None
        end
      else (String c) <$> sprintf_s rest args
  end.

End GoString.

Import GoString.

(** ** The flag set collaborator ([pflag])

    A [pflag.Flag], with the fields the generator reads. *)
Record Flag : Type := mkFlag {
  flag_Name : string;
  flag_Shorthand : string;
  flag_Usage : string;
  flag_DefValue : string;
  flag_NoOptDefVal : string;
  flag_Deprecated : string;
  flag_Hidden : bool;
  flag_ShorthandDeprecated : string
}.

(** A [*pflag.FlagSet] is the sequence of its flags in the order in which
    [VisitAll] calls back; [HasFlags] tells whether there is any flag. *)
Definition FlagSet : Type := list Flag.

Definition HasFlags (flags : FlagSet) : bool :=
  match flags with
  | [] => false
  | _ :: _ => true
  end.

(** ** The command tree collaborator ([cobra])

    The view of a [cobra.Command] that the generator consumes. The
    methods whose result cobra computes from its own state ([Name],
    [UseLine], [Flags], [NonInheritedFlags], [IsAvailableCommand],
    [IsAdditionalHelpTopicCommand]) are fields; [cmd_commands] is the
    slice that [Commands] hands out, in its current order. *)
#[warnings="-register-all"]
Inductive Command : Type := mkCommand {
  cmd_Name : string;
  cmd_UseLine : string;
  cmd_Short : string;
  cmd_Long : string;
  cmd_Example : string;
  cmd_Annotations : gmap string string;
  cmd_Flags : FlagSet;
  cmd_NonInheritedFlags : FlagSet;
  cmd_IsAvailableCommand : bool;
  cmd_IsAdditionalHelpTopicCommand : bool;
  cmd_commands : list Command
}.

(** The same command with another order (or content) of its slice. *)
Definition withCommands (c : Command) (cs : list Command) : Command :=
  mkCommand (cmd_Name c) (cmd_UseLine c) (cmd_Short c) (cmd_Long c)
    (cmd_Example c) (cmd_Annotations c) (cmd_Flags c)
    (cmd_NonInheritedFlags c) (cmd_IsAvailableCommand c)
    (cmd_IsAdditionalHelpTopicCommand c) cs.

(** [cmd.Annotations[key]]: the empty string for a key that is not set. *)
Definition annotation (c : Command) (key : string) : string :=
  default EmptyString (cmd_Annotations c !! key).

(** The number of levels of a tree. *)
Fixpoint height (c : Command) : nat :=
  S (foldr (fun k m => Nat.max (height k) m) 0 (cmd_commands c)).

(** A [*cobra.Command] reached in a tree: the command and the chain of
    its parents, nearest first. The parent link of cobra is the head of
    the chain. *)
Record Node : Type := mkNode {
  node_self : Command;
  node_ancestors : list Command
}.

Definition Name (n : Node) : string := cmd_Name (node_self n).

Definition HasParent (n : Node) : bool :=
  match node_ancestors n with
  | [] => false
  | _ :: _ => true
  end.

Definition Parent (n : Node) : option Node :=
  match node_ancestors n with
  | [] => None
  | p :: rest => Some (mkNode p rest)
  end.

(** [DisplayName]: the annotation [cobra_annotation_command_display_name]
    of the command when it has one, its name otherwise. A cobra that
    does not know the annotation takes the name. *)
Definition DisplayName (c : Command) : string :=
  match cmd_Annotations c !! "cobra_annotation_command_display_name" with
  | Some displayName => displayName
  | None => cmd_Name c
  end.

(** [CommandPath]: the parent's path, a space and the name; the display
    name at a node without parent. *)
Fixpoint pathOf (self : Command) (ancestors : list Command) : string :=
  match ancestors with
  | [] => DisplayName self
  | p :: rest => pathOf p rest +:+ " " +:+ cmd_Name self
  end.

Definition CommandPath (n : Node) : string :=
  pathOf (node_self n) (node_ancestors n).

(** The child [c] of node [n], as the loop over [n]'s slice meets it
    while the slice holds [arr]. *)
Definition child (n : Node) (arr : list Command) (c : Command) : Node :=
  mkNode c (withCommands (node_self n) arr :: node_ancestors n).

(** The names from the top of the chain down to the node: the display
    name of the command at the top, then the names of the commands
    under it. *)
Fixpoint namesOf (self : Command) (ancestors : list Command) : list string :=
  match ancestors with
  | [] => [DisplayName self]
  | p :: rest => namesOf p rest ++ [cmd_Name self]
  end.

Definition chainNames (n : Node) : list string :=
  namesOf (node_self n) (node_ancestors n).

(** A command that gets a page: available and not a help topic. *)
Definition documented (c : Command) : bool :=
  negb (negb (cmd_IsAvailableCommand c) || cmd_IsAdditionalHelpTopicCommand c).

(** Modelled from the spec: the sort.Interface [byName] is not part of
    the source at hand; the cross references are sorted by name, so
    [Less] compares the names of two commands as byte strings. *)
Definition byName_Less (a b : Command) : bool :=
  String.ltb (cmd_Name a) (cmd_Name b).

(** [sort.Sort(byName(cs))] as the insertion sort that package sort
    runs on a short slice. [sort.Sort] is not stable: on a longer slice
    commands of equal name may come out in another order. *)
Fixpoint sortInsert (x : Command) (sorted : list Command) : list Command :=
  match sorted with
  | [] => [x]
  | y :: rest =>
      if byName_Less y x then y :: sortInsert x rest else x :: y :: rest
  end.

Definition sort_byName (cs : list Command) : list Command :=
  foldr sortInsert [] cs.

(** ** Options and page model *)

(** An [error] value, by its message. *)
Definition error : Type := string.

(** [GenerateManOptions]; [Date] is a point in time in Unix seconds. *)
Record GenerateManOptions : Type := mkOptions {
  ProgramName : string;
  Section_ : string;
  CenterFooter : string;
  Date : option Z;
  LeftFooter : string;
  CenterHeader : string;
  Files : string;
  Bugs : string;
  Environment : string;
  Author : string;
  Directory : string;
  CommandSeparator : string;
  GenSeprateInheritedFlags : bool;
  UseTemplate : string
}.

(** [opts.ProgramName = name]. *)
Definition setProgramName (opts : GenerateManOptions) (name : string)
  : GenerateManOptions :=
  mkOptions name (Section_ opts) (CenterFooter opts) (Date opts)
    (LeftFooter opts) (CenterHeader opts) (Files opts) (Bugs opts)
    (Environment opts) (Author opts) (Directory opts)
    (CommandSeparator opts) (GenSeprateInheritedFlags opts)
    (UseTemplate opts).

(** [manStruct], the values handed to the template. *)
Record manStruct : Type := mkManStruct {
  ms_ProgramName : string;
  ms_Section : string;
  ms_CenterFooter : string;
  ms_LeftFooter : string;
  ms_CenterHeader : string;
  ms_Name : string;
  ms_UseLine : string;
  ms_CommandPath : string;
  ms_Description : string;
  ms_SynFlags : string;
  ms_HasFlags : bool;
  ms_Flags : string;
  ms_HasInheritedFlags : bool;
  ms_InheritedFlags : string;
  ms_HasSeeAlso : bool;
  ms_SeeAlsos : string;
  ms_HasAuthor : bool;
  ms_Author : string;
  ms_HasEnvironment : bool;
  ms_Environment : string;
  ms_HasFiles : bool;
  ms_Files : string;
  ms_HasBugs : bool;
  ms_Bugs : string;
  ms_HasExamples : bool;
  ms_Examples : string
}.

(** ** The file system and the other collaborators

    A file that [os.Create] made, with the bytes written to it; the log
    of a run keeps the files in the order of their creation. The node a
    file was created for is kept with it. *)
Record Page : Type := mkPage {
  page_node : Node;
  page_file : string;
  page_body : string
}.

Abbreviation World := (list Page).

(** What the generator calls and this development does not define: the
    two helpers of package [man] that are not part of the source at hand
    ([backslashify], [simpleToTroff]), and the Go libraries.
    - [fmt_Sprintf] is [fmt.Sprintf] outside the [%s] fragment;
    - [filepath_Join] is [filepath.Join];
    - [time_Now] is the clock, [time_Format] is [Time.Format];
    - [os_Create] tells whether creating a file fails, given the files
      made so far;
    - [file_Write] gives the bytes of a text that reach the file and the
      error that stopped the writing, if any;
    - [template_Parse] is [template.New("man").Parse] followed by
      [Execute] for a template outside the fragment computed below: a
      parse error, or the text rendered from the values with the error
      that stopped the rendering, if any. *)
Class Externals : Type := mkExternals {
  backslashify : string -> string;
  simpleToTroff : string -> string;
  fmt_Sprintf : string -> list string -> string;
  filepath_Join : string -> string -> string;
  time_Now : World -> Z;
  time_Format : Z -> string -> string;
  os_Create : World -> string -> option error;
  file_Write : World -> string -> string -> string * option error;
  template_Parse : string -> error + (manStruct -> string * option error)
}.

(** ** Templates

    The fragment of [text/template] that the built-in template is
    written in: text, [{{.Field}}], [{{if .Field}}] and [{{end}}] over
    the fields of [manStruct]. A template of the fragment is parsed and
    executed here; any other text is left to the collaborator. *)
Module Template.

Inductive Value : Type :=
| VString (s : string)
| VBool (b : bool).

Inductive Tok : Type :=
| TText (text : string)
| TField (name : string)
| TIf (name : string)
| TEnd.

(** The fields of the values, as reflection finds them by name. *)
Definition fields (v : manStruct) : list (string * Value) :=
  [ ("ProgramName", VString (ms_ProgramName v));
    ("Section", VString (ms_Section v));
    ("CenterFooter", VString (ms_CenterFooter v));
    ("LeftFooter", VString (ms_LeftFooter v));
    ("CenterHeader", VString (ms_CenterHeader v));
    ("Name", VString (ms_Name v));
    ("UseLine", VString (ms_UseLine v));
    ("CommandPath", VString (ms_CommandPath v));
    ("Description", VString (ms_Description v));
    ("SynFlags", VString (ms_SynFlags v));
    ("HasFlags", VBool (ms_HasFlags v));
    ("Flags", VString (ms_Flags v));
    ("HasInheritedFlags", VBool (ms_HasInheritedFlags v));
    ("InheritedFlags", VString (ms_InheritedFlags v));
    ("HasSeeAlso", VBool (ms_HasSeeAlso v));
    ("SeeAlsos", VString (ms_SeeAlsos v));
    ("HasAuthor", VBool (ms_HasAuthor v));
    ("Author", VString (ms_Author v));
    ("HasEnvironment", VBool (ms_HasEnvironment v));
    ("Environment", VString (ms_Environment v));
    ("HasFiles", VBool (ms_HasFiles v));
    ("Files", VString (ms_Files v));
    ("HasBugs", VBool (ms_HasBugs v));
    ("Bugs", VString (ms_Bugs v));
    ("HasExamples", VBool (ms_HasExamples v));
    ("Examples", VString (ms_Examples v)) ].

Definition field (name : string) (v : manStruct) : option Value :=
  snd <$> List.find (fun '(n, _) => String.eqb n name) (fields v).

(** The zero value of [manStruct]. *)
Definition zero : manStruct :=
  mkManStruct EmptyString EmptyString EmptyString EmptyString EmptyString
    EmptyString EmptyString EmptyString EmptyString EmptyString
    false EmptyString false EmptyString false EmptyString false EmptyString
    false EmptyString false EmptyString false EmptyString false EmptyString.

Definition isField (name : string) : bool :=
  match field name zero with
  | Some _ => true
  | None => false
  end.

(** What an action prints for a value, and its truth in an [if]. *)
Definition print (x : Value) : string :=
  match x with
  | VString s => s
  | VBool true => "true"
  | VBool false => "false"
  end.

Definition truth (x : Value) : bool :=
  match x with
  | VString s => nonEmpty s
  | VBool b => b
  end.

(** The text between the delimiters and the text inside them. *)
Inductive Raw : Type :=
| RawText (text : string)
| RawAction (text : string).

(** Splitting at [{{] and [}}]; [acc] holds the bytes of the piece at
    hand, last byte first. A text that ends inside an action does not
    lex. *)
Fixpoint lex (inAction : bool) (acc : string) (s : string)
  : option (list Raw) :=
  match s with
  | EmptyString =>
      if inAction then None else Some [RawText (String.rev acc)]
  | String c rest =>
      match rest with
      | String d rest' =>
          if negb inAction && Ascii.eqb c "{" && Ascii.eqb d "{" then
            cons (RawText (String.rev acc)) <$> lex true EmptyString rest'
          else if inAction && Ascii.eqb c "}" && Ascii.eqb d "}" then
            cons (RawAction (String.rev acc)) <$> lex false EmptyString rest'
          else lex inAction (String c acc) rest
      | EmptyString => lex inAction (String c acc) rest
      end
  end.

(** A field reference [.Name] of a known field. *)
Definition fieldRef (word : string) : option string :=
  match word with
  | String c name =>
      if Ascii.eqb c "." && isField name then Some name else None
  | EmptyString => None
  end.

(** The actions of the fragment, by their words. *)
Definition action (text : string) : option Tok :=
  match String.words text with
  | [w] => if String.eqb w "end" then Some TEnd else TField <$> fieldRef w
  | [w1; w2] => if String.eqb w1 "if" then TIf <$> fieldRef w2 else None
  | _ => None
  end.

Definition token (r : Raw) : option Tok :=
  match r with
  | RawText text => Some (TText text)
  | RawAction text => action text
  end.

(** Every [if] has its [end] and every [end] its [if]. *)
Fixpoint balanced (depth : nat) (toks : list Tok) : bool :=
  match toks with
  | [] => Nat.eqb depth 0
  | TIf _ :: rest => balanced (S depth) rest
  | TEnd :: rest =>
      match depth with
      | 0 => false
      | S depth' => balanced depth' rest
      end
  | _ :: rest => balanced depth rest
  end.

(** Parsing: the tokens of a text of the fragment. *)
Definition parse (text : string) : option (list Tok) :=
  raws ← lex false EmptyString text;
  toks ← mapM token raws;
  if balanced 0 toks then Some toks else None.

(** Executing: [skip] counts the enclosing [if]s from the innermost
    one whose condition is false. *)
Fixpoint execute (toks : list Tok) (skip : nat) (v : manStruct) : string :=
  match toks with
  | [] => EmptyString
  | TText text :: rest =>
      (if Nat.eqb skip 0 then text else EmptyString) +:+ execute rest skip v
  | TField name :: rest =>
      (if Nat.eqb skip 0 then default EmptyString (print <$> field name v)
       else EmptyString) +:+ execute rest skip v
  | TIf name :: rest =>
      match skip with
      | 0 =>
          if default false (truth <$> field name v) then execute rest 0 v
          else execute rest 1 v
      | S _ => execute rest (S skip) v
      end
  | TEnd :: rest => execute rest (Nat.pred skip) v
  end.

End Template.

(** The built-in template. *)
Definition defaultManTemplate : string :=
  ".TH " +:+ dq +:+ "{{.ProgramName}}" +:+ dq +:+ " " +:+
  dq +:+ "{{ .Section }}" +:+ dq +:+ " " +:+
  dq +:+ "{{.CenterFooter}}" +:+ dq +:+ " " +:+
  dq +:+ "{{.LeftFooter}}" +:+ dq +:+ " " +:+
  dq +:+ "{{.CenterHeader}}" +:+ dq +:+ " " +:+ nl +:+
  ".nh" +:+ nl +:+
  ".ad l" +:+ nl +:+
  ".SH NAME" +:+ nl +:+
  ".PP" +:+ nl +:+
  "zap\-publish \- Publish into MQTT" +:+ nl +:+
  ".SH SYNOPSIS" +:+ nl +:+
  ".PP" +:+ nl +:+
  ".B {{ .CommandPath }}" +:+ nl +:+
  "{{ .SynFlags }}" +:+ nl +:+
  ".SH DESCRIPTION" +:+ nl +:+
  ".PP" +:+ nl +:+
  "{{ .Description }}{{ if .HasFlags }}" +:+ nl +:+
  ".SH OPTIONS" +:+ nl +:+
  "{{ .Flags }}{{ end }}{{ if .HasInheritedFlags }}" +:+ nl +:+
  ".SH OPTIONS INHERITED FROM PARENT COMMANDS" +:+ nl +:+
  "{{ .InheritedFlags }}{{ end }}{{ if .HasEnvironment }}" +:+ nl +:+
  ".SH Environment" +:+ nl +:+
  ".PP" +:+ nl +:+
  "{{ .Environment }}{{ end }}{{ if .HasFiles }}" +:+ nl +:+
  ".SH FILES" +:+ nl +:+
  ".PP" +:+ nl +:+
  "{{ .Files }}{{ end }}{{ if .HasBugs }}" +:+ nl +:+
  ".SH BUGS" +:+ nl +:+
  ".PP" +:+ nl +:+
  "{{ .Bugs }}{{ end }}{{ if .HasExamples }}" +:+ nl +:+
  ".SH EXAMPLES" +:+ nl +:+
  ".PP" +:+ nl +:+
  "{{ .Examples }}{{ end }}{{if .HasAuthor }}" +:+ nl +:+
  ".SH AUTHOR" +:+ nl +:+
  ".PP" +:+ nl +:+
  "{{.Author}}{{end}}{{if .HasSeeAlso }}" +:+ nl +:+
  ".SH SEE ALSO" +:+ nl +:+
  "{{ .SeeAlsos }}{{ end }}" +:+ nl +:+
  "." +:+ dq +:+ " This file auto-generated by github.com/rjohnson/cobra-man" +:+ nl.

(** ** Effects

    A run reads and writes the options record behind the [opts] pointer
    and the file system. A computation ends with a value, with a Go
    [error], or it runs out of fuel (the recursion of the walker is
    bounded by a fuel argument). *)
Record State : Type := mkState {
  st_opts : GenerateManOptions;
  st_world : World
}.

Inductive Outcome (A : Type) : Type :=
| Return (a : A)
| Failure (err : error)
| OutOfFuel.

Arguments Return {A} a.
Arguments Failure {A} err.
Arguments OutOfFuel {A}.

Definition M (A : Type) : Type := State -> State * Outcome A.

#[global] Instance M_ret : MRet M := fun A a st => (st, Return a).

#[global] Instance M_bind : MBind M := fun A B k m st =>
  match m st with
  | (st', Return a) => k a st'
  | (st', Failure err) => (st', Failure err)
  | (st', OutOfFuel) => (st', OutOfFuel)
  end.

Definition fail {A : Type} (err : error) : M A := fun st => (st, Failure err).
Definition outOfFuel {A : Type} : M A := fun st => (st, OutOfFuel).
Definition getOpts : M GenerateManOptions := fun st => (st, Return (st_opts st)).
Definition setOpts (opts : GenerateManOptions) : M unit :=
  fun st => (mkState opts (st_world st), Return tt).
Definition getWorld : M World := fun st => (st, Return (st_world st)).
Definition setWorld (world : World) : M unit :=
  fun st => (mkState (st_opts st) world, Return tt).

Section Generator.

Context {ext : Externals}.

(** [fmt.Sprintf] over string operands: computed on the [%s] fragment,
    left to the collaborator elsewhere. *)
Definition Sprintf (format : string) (args : list string) : string :=
  match sprintf_s format args with
  | Some text => text
  | None => fmt_Sprintf format args
  end.

(** ** Flag formatter *)

(** The callback of [printSynFlags], on the buffer so far. *)
Definition printSynFlag (buf : string) (flag : Flag) : string :=
  if nonEmpty (flag_Deprecated flag) || flag_Hidden flag then buf
  else if nonEmpty (flag_Shorthand flag)
          && negb (nonEmpty (flag_ShorthandDeprecated flag)) then
    buf +:+ Sprintf (".RB [ \-%s ]" +:+ nl) [flag_Shorthand flag]
  else
    buf +:+ Sprintf (".RB [ \-\-%s ]" +:+ nl) [backslashify (flag_Name flag)].

(** [printSynFlags(buf, flags)], from the buffer [buf]. *)
Definition printSynFlags (buf : string) (flags : FlagSet) : string :=
  fold_left printSynFlag flags buf.

(** The format that [printFlags] builds for a flag it prints. *)
Definition flagFormat (flag : Flag) : string :=
  let format := ".TP" +:+ nl in
  let format :=
    if nonEmpty (flag_Shorthand flag)
       && negb (nonEmpty (flag_ShorthandDeprecated flag)) then
      format +:+ Sprintf "\fB\-%s\fP, \fB\-\-%s\fP"
                  [flag_Shorthand flag; backslashify (flag_Name flag)]
    else
      format +:+ Sprintf "\fB\-\-%s\fP" [backslashify (flag_Name flag)] in
  let format :=
    if nonEmpty (flag_NoOptDefVal flag) then format +:+ "[" else format in
  let format := format +:+ "=\fI%s\fR" in
  let format :=
    if nonEmpty (flag_NoOptDefVal flag) then format +:+ "]" else format in
  format +:+ nl +:+ "%s" +:+ nl.

(** The callback of [printFlags], on the buffer so far. *)
Definition printFlag (buf : string) (flag : Flag) : string :=
  if nonEmpty (flag_Deprecated flag) || flag_Hidden flag then buf
  else
    let str := Sprintf (flagFormat flag)
                 [backslashify (flag_DefValue flag);
                  backslashify (flag_Usage flag)] in
    buf +:+ TrimRight str (" " +:+ nl).

(** [printFlags(buf, flags)], from the buffer [buf]. *)
Definition printFlags (buf : string) (flags : FlagSet) : string :=
  fold_left printFlag flags buf.

(** ** Cross-reference builder *)

(** [generateSeeAlso(cmd, section)]. The two calls of [sort.Sort] work
    on the slices of the parent and of the command themselves: what
    they leave behind in the tree is accounted for in
    [GenerateManPages] below. *)
Definition generateSeeAlso (cmd : Node) (section : string) : bool * string :=
  let hasSeeAlso := false in
  let seealsos : list string := [] in
  let '(hasSeeAlso, seealsos) :=
    match Parent cmd with
    | Some parent =>
        let hasSeeAlso := true in
        let parentPath := CommandPath parent in
        let dashParentPath := Replace parentPath space "\-" in
        let seealso := Sprintf ".BR %s (%s)" [dashParentPath; section] in
        let seealsos := seealsos ++ [seealso] in
        let siblings := sort_byName (cmd_commands (node_self parent)) in
        let seealsos :=
          fold_left
            (fun seealsos c =>
               if negb (cmd_IsAvailableCommand c)
                  || cmd_IsAdditionalHelpTopicCommand c
                  || String.eqb (cmd_Name c) (Name cmd)
               then seealsos
               else
                 let seealso :=
                   Sprintf ".BR %s\-%s (%s)"
                     [dashParentPath; cmd_Name c; section] in
                 seealsos ++ [seealso])
            siblings seealsos in
        (hasSeeAlso, seealsos)
    | None => (hasSeeAlso, seealsos)
    end in
  let commandPath := CommandPath cmd in
  let dashCommandName := Replace commandPath space "\-" in
  let children := sort_byName (cmd_commands (node_self cmd)) in
  let '(hasSeeAlso, seealsos) :=
    fold_left
      (fun '(hasSeeAlso, seealsos) c =>
         if negb (cmd_IsAvailableCommand c)
            || cmd_IsAdditionalHelpTopicCommand c
         then (hasSeeAlso, seealsos)
         else
           let hasSeeAlso := true in
           let seealso :=
             Sprintf ".BR %s\-%s (%s)"
               [dashCommandName; cmd_Name c; section] in
           (hasSeeAlso, seealsos ++ [seealso]))
      children (hasSeeAlso, seealsos) in
  (hasSeeAlso, Join seealsos ("," +:+ nl)).

(** ** Page model assembler *)

(** The values that [generateManPage] hands to the template, with
    [now] the reading of the clock. A field that the source assigns
    under a condition keeps its zero value otherwise. *)
Definition manValues (cmd : Node) (opts : GenerateManOptions) (now : Z)
  : manStruct :=
  let c := node_self cmd in
  (* Header fields *)
  let v_ProgramName := ProgramName opts in
  let v_LeftFooter := LeftFooter opts in
  let v_CenterHeader := CenterHeader opts in
  let v_Section := Section_ opts in
  let v_Section := if nonEmpty v_Section then v_Section else "1" in
  let date := match Date opts with Some d => d | None => now end in
  let v_CenterFooter :=
    if nonEmpty (CenterFooter opts) then CenterFooter opts
    else time_Format date "Jan 2006" in
  (* NAME *)
  let dashCommandName := Replace (CommandPath cmd) space "-" in
  let v_Name :=
    Sprintf ("%s \- %s" +:+ nl) [dashCommandName; backslashify (cmd_Short c)] in
  let flags := cmd_Flags c in
  let v_SynFlags :=
    if HasFlags flags then printSynFlags EmptyString flags else EmptyString in
  (* SYNOPSIS *)
  let v_UseLine := cmd_UseLine c in
  let v_CommandPath := CommandPath cmd in
  (* DESCRIPTION *)
  let description := cmd_Long c in
  let description :=
    if nonEmpty description then description else cmd_Short c in
  let v_Description := description in
  (* Options *)
  let flags :=
    if GenSeprateInheritedFlags opts then cmd_NonInheritedFlags c
    else cmd_Flags c in
  let v_HasFlags := HasFlags flags in
  let v_Flags :=
    if HasFlags flags then printFlags EmptyString flags else EmptyString in
  let flags :=
    if GenSeprateInheritedFlags opts then cmd_NonInheritedFlags c
    else flags in
  let v_HasInheritedFlags := GenSeprateInheritedFlags opts in
  let v_InheritedFlags :=
    if GenSeprateInheritedFlags opts then printFlags EmptyString flags
    else EmptyString in
  (* ENVIRONMENT section *)
  let inEnvironment :=
    nonEmpty (Environment opts)
    || nonEmpty (annotation c "man-environment-section") in
  let v_HasEnvironment := inEnvironment in
  let v_Environment :=
    if inEnvironment then
      if nonEmpty (annotation c "man-environment-section")
      then simpleToTroff (annotation c "man-environment-section")
      else simpleToTroff (Environment opts)
    else EmptyString in
  (* FILES section *)
  let inFiles :=
    nonEmpty (Files opts) || nonEmpty (annotation c "man-files-section") in
  let v_HasFiles := inFiles in
  let v_Files :=
    if inFiles then
      if nonEmpty (annotation c "man-files-section")
      then simpleToTroff (annotation c "man-files-section")
      else simpleToTroff (Files opts)
    else EmptyString in
  (* BUGS section *)
  let inBugs :=
    nonEmpty (Bugs opts) || nonEmpty (annotation c "man-bugs-section") in
  let v_HasBugs := inBugs in
  let v_Bugs :=
    if inBugs then
      if nonEmpty (annotation c "man-bugs-section")
      then simpleToTroff (annotation c "man-bugs-section")
      else simpleToTroff (Bugs opts)
    else EmptyString in
  (* EXAMPLES section: the text is assigned to the Bugs field *)
  let inExamples :=
    nonEmpty (cmd_Example c)
    || nonEmpty (annotation c "man-examples-section") in
  let v_HasExamples := inExamples in
  let v_Bugs :=
    if inExamples then
      if nonEmpty (annotation c "man-examples-section")
      then simpleToTroff (annotation c "man-examples-section")
      else simpleToTroff (cmd_Example c)
    else v_Bugs in
  let v_Examples := EmptyString in
  (* AUTHOR section *)
  let v_HasAuthor := nonEmpty (Author opts) in
  let v_Author :=
    if nonEmpty (Author opts) then
      Author opts +:+ nl +:+ ".PP" +:+ nl +:+
      ".SM Page auto-generated by rjohnson/cobra-man and spf13/cobra"
    else EmptyString in
  (* SEE ALSO section *)
  let seeAlso := generateSeeAlso cmd v_Section in
  let v_HasSeeAlso := seeAlso.1 in
  let v_SeeAlsos := seeAlso.2 in
  mkManStruct v_ProgramName v_Section v_CenterFooter v_LeftFooter
    v_CenterHeader v_Name v_UseLine v_CommandPath v_Description v_SynFlags
    v_HasFlags v_Flags v_HasInheritedFlags v_InheritedFlags
    v_HasSeeAlso v_SeeAlsos v_HasAuthor v_Author
    v_HasEnvironment v_Environment v_HasFiles v_Files
    v_HasBugs v_Bugs v_HasExamples v_Examples.

(** ** Rendering and writing *)

(** [template.New("man").Parse(text)]: a parse error, or what
    [Execute] renders from the values together with the error that
    stopped it, if any. *)
Definition parseTemplate (text : string)
  : error + (manStruct -> string * option error) :=
  match Template.parse text with
  | Some toks => inr (fun values => (Template.execute toks 0 values, None))
  | None => template_Parse text
  end.

(** [os.Create(filename)] for the page of [cmd]: the new, empty file
    is the last one of the log, and the handle is its place there. *)
Definition Create (cmd : Node) (filename : string) : M nat :=
  world ← getWorld;
  match os_Create world filename with
  | Some err => fail err
  | None =>
      setWorld (world ++ [mkPage cmd filename EmptyString]);;
      mret (List.length world)
  end.

(** [parsedTemplate.Execute(f, values)]: the bytes that reach the
    file [f], and the error of the writing or else of the
    rendering. *)
Definition Execute (parsedTemplate : manStruct -> string * option error)
    (f : nat) (values : manStruct) : M (option error) :=
  world ← getWorld;
  let '(text, renderErr) := parsedTemplate values in
  let filename := default EmptyString (page_file <$> world !! f) in
  let '(written, writeErr) := file_Write world filename text in
  setWorld (alter (fun p => mkPage (page_node p) (page_file p) written) f world);;
  mret (match writeErr with
        | Some err => Some err
        | None => renderErr
        end).

(** [generateManPage(cmd, opts, f)]. *)
Definition generateManPage (cmd : Node) (f : nat) : M unit :=
  opts ← getOpts;
  world ← getWorld;
  let values := manValues cmd opts (time_Now world) in
  (* Build the template and generate the man page *)
  let manTemplateStr :=
    if nonEmpty (UseTemplate opts) then UseTemplate opts
    else defaultManTemplate in
  match parseTemplate manTemplateStr with
  | inl err => fail err
  | inr parsedTemplate =>
      err ← Execute parsedTemplate f values;
      match err with
      | Some err => fail err
      | None => mret tt
      end
  end.

(** ** Tree walker *)

(** The loop of [GenerateManPages] over the slice [cmd.Commands()]:
    [todo] iterations are left, the next one reads index [i] of the
    slice, which holds [commands] now. [visit] is the recursive call;
    it yields the child as its run leaves it, and by then
    [generateSeeAlso] of the child has sorted this very slice. *)
Fixpoint rangeCommands (visit : Node -> M Command) (cmd : Node)
    (todo i : nat) (commands : list Command) : M (list Command) :=
  match todo with
  | 0 => mret commands
  | S todo =>
      match commands !! i with
      | None => mret commands
      | Some c =>
          if negb (cmd_IsAvailableCommand c)
             || cmd_IsAdditionalHelpTopicCommand c
          then rangeCommands visit cmd todo (S i) commands
          else
            c' ← visit (child cmd commands c);
            rangeCommands visit cmd todo (S i)
              (sort_byName (<[i := c']> commands))
      end
  end.

(** [GenerateManPages(cmd, opts)] with the recursion bounded by
    [fuel]. The value is the command as the run leaves it: the visited
    part of its tree has its slices sorted by name. *)
Fixpoint GenerateManPages_fuel (fuel : nat) (cmd : Node) : M Command :=
  match fuel with
  | 0 => outOfFuel
  | S fuel =>
      opts ← getOpts;
      (if nonEmpty (ProgramName opts) then mret tt
       else setOpts (setProgramName opts (CommandPath cmd)));;
      commands ←
        rangeCommands (GenerateManPages_fuel fuel) cmd
          (List.length (cmd_commands (node_self cmd))) 0
          (cmd_commands (node_self cmd));
      let cmd := mkNode (withCommands (node_self cmd) commands)
                   (node_ancestors cmd) in
      opts ← getOpts;
      let section := "1" in
      let section :=
        if nonEmpty (Section_ opts) then Section_ opts else section in
      let separator := "-" in
      let separator :=
        if nonEmpty (CommandSeparator opts) then CommandSeparator opts
        else separator in
      let basename := Replace (CommandPath cmd) space separator in
      let filename :=
        filepath_Join (Directory opts) (basename +:+ "." +:+ section) in
      f ← Create cmd filename;
      generateManPage cmd f;;
      mret (withCommands (node_self cmd) (sort_byName commands))
  end.

(** [GenerateManPages(cmd, opts)]: a tree of [height] levels needs
    that much fuel. *)
Definition GenerateManPages (cmd : Node) : M Command :=
  GenerateManPages_fuel (height (node_self cmd)) cmd.

End Generator.

(** ** Stand-ins for closed examples

    Collaborators to run the generator on concrete trees: a dash is
    escaped by [backslashify], [simpleToTroff] passes its text on,
    [filepath.Join] puts a slash between its parts, the clock stands
    still, no file operation fails and no template outside the fragment
    parses. The properties below hold for every collaborator; the
    stand-ins only serve to evaluate. *)
Definition standIn : Externals :=
  mkExternals
    (fun s => Replace s "-" "\-")
    (fun s => s)
    (fun format _ => format)
    (fun dir name => dir +:+ "/" +:+ name)
    (fun _ => 0%Z)
    (fun _ _ => "Jan 2006")
    (fun _ _ => None)
    (fun _ _ text => (text, None))
    (fun _ => inl "template: outside the fragment").


(** The stand-ins, with a disk that is full: no byte of a page reaches
    its file. *)
Definition diskFull : Externals :=
  mkExternals
    (fun s => Replace s "-" "\-")
    (fun s => s)
    (fun format _ => format)
    (fun dir name => dir +:+ "/" +:+ name)
    (fun _ => 0%Z)
    (fun _ _ => "Jan 2006")
    (fun _ _ => None)
    (fun _ _ _ => (EmptyString, Some "disk full"))
    (fun _ => inl "template: outside the fragment").

Module Example.

Definition leaf (name short : string) : Command :=
  mkCommand name name short EmptyString EmptyString ∅ [] [] true false [].

Definition verbose : Flag :=
  mkFlag "verbose" "v" "be loud" "false" "true" EmptyString false EmptyString.
Definition config : Flag :=
  mkFlag "config" EmptyString "config file" EmptyString EmptyString
    EmptyString false EmptyString.
Definition legacy : Flag :=
  mkFlag "legacy" "l" "old switch" "off" EmptyString EmptyString false
    "use --legacy".
Definition secret : Flag :=
  mkFlag "secret" "s" "not shown" "x" EmptyString EmptyString true EmptyString.
Definition gone : Flag :=
  mkFlag "gone" "g" "no more" "x" EmptyString "use --config" false EmptyString.

(** The two-level tree [app], [app sub]. *)
Definition sub : Command := leaf "sub" "a sub command".
Definition app : Command :=
  mkCommand "app" "app" "an application" EmptyString EmptyString ∅
    [verbose; config] [verbose; config] true false [sub].

Definition opts : GenerateManOptions :=
  mkOptions EmptyString EmptyString EmptyString None EmptyString EmptyString
    EmptyString EmptyString EmptyString EmptyString "out" EmptyString false
    EmptyString.

(** The same options, with inherited flags in a section of their own. *)
Definition optsSplit : GenerateManOptions :=
  mkOptions EmptyString EmptyString EmptyString None EmptyString EmptyString
    EmptyString EmptyString EmptyString EmptyString "out" EmptyString true
    EmptyString.

(** The same options, with an environment section for all pages. *)
Definition optsEnv : GenerateManOptions :=
  mkOptions EmptyString EmptyString EmptyString None EmptyString EmptyString
    EmptyString EmptyString "HOME is read" EmptyString "out" EmptyString false
    EmptyString.

(** A tree whose slice is not in the order of the names. *)
Definition unsorted : Command :=
  mkCommand "tool" "tool" "short" EmptyString EmptyString ∅ [] [] true false
    [leaf "sub" "s"; leaf "abc" "a"; leaf "zz" "z"].

(** A command with only a hidden flag. *)
Definition shy : Command :=
  mkCommand "shy" "shy" "short" EmptyString EmptyString ∅
    [secret] [secret] true false [].

(** A command with an example, an annotation for its bugs section, and
    options with a bugs section for every page. *)
Definition zap : Command :=
  mkCommand "zap" "zap" "short" EmptyString "zap publish"
    {[ "man-bugs-section" := "see the tracker" ]} [] [] true false [].
Definition optsBugs : GenerateManOptions :=
  mkOptions "zap" EmptyString EmptyString None EmptyString EmptyString
    EmptyString "mail the author" EmptyString EmptyString "out" EmptyString
    false EmptyString.

(** A tree whose top command is not available. *)
Definition ghost : Command :=
  mkCommand "ghost" "ghost" "short" EmptyString EmptyString ∅ [] [] false
    false [sub].

(** Two commands of one name under one parent. *)
Definition twin1 : Command := leaf "twin" "the first".
Definition twin2 : Command := leaf "twin" "the second".
Definition pair : Command :=
  mkCommand "pair" "pair" "short" EmptyString EmptyString ∅ [] [] true false
    [twin1; twin2].

(** The tree [app], [app sub] with a display name for [app]. *)
Definition renamed : Command :=
  mkCommand "app" "app" "an application" EmptyString EmptyString
    {[ "cobra_annotation_command_display_name" := "my app" ]} [] [] true false
    [sub].

(** The options of [opts] with a template of their own that names a
    field the values do not have. *)
Definition optsNope : GenerateManOptions :=
  mkOptions EmptyString EmptyString EmptyString None EmptyString EmptyString
    EmptyString EmptyString EmptyString EmptyString "out" EmptyString false
    "{{ .Nope }}".

End Example.

(** ** Vocabulary of the properties *)

(** A flag that is hidden or deprecated. *)
Definition unlisted (flag : Flag) : bool :=
  nonEmpty (flag_Deprecated flag) || flag_Hidden flag.

(** Alphabetical order of commands: the names, compared as byte
    strings. *)
Definition byName (a b : Command) : Prop :=
  String.le (cmd_Name a) (cmd_Name b).

(** The slice of the parent of a node; empty at a node without
    parent. *)
Definition parentCommands (cmd : Node) : list Command :=
  match Parent cmd with
  | Some parent => cmd_commands (node_self parent)
  | None => []
  end.

(** The path of the parent of a node. *)
Definition parentPath (cmd : Node) : string :=
  match Parent cmd with
  | Some parent => CommandPath parent
  | None => EmptyString
  end.

(** The text a section is made from: the annotation of the command when
    it is not empty, the default otherwise. *)
Definition chosen (annot default : string) : string :=
  if nonEmpty annot then annot else default.

(** Whether a list has an element. *)
Definition notNil {A : Type} (l : list A) : bool :=
  match l with
  | [] => false
  | _ :: _ => true
  end.

(** The commands from a node up to the top of its chain. *)
Definition chain (n : Node) : list Command :=
  node_self n :: node_ancestors n.

(** [n] is the node [cmd], whatever the order of its slice. *)
Definition sameNode (cmd n : Node) : Prop :=
  exists arr : list Command,
    n = mkNode (withCommands (node_self cmd) arr) (node_ancestors cmd).

(** [n] lies under the node [cmd], and every command from [n] up to the
    child of [cmd] on the way is documented. *)
Definition below (cmd n : Node) : Prop :=
  exists (path : list Command) (arr : list Command),
    path <> []
    /\ Forall (fun c => documented c = true) path
    /\ chain n = path ++ withCommands (node_self cmd) arr :: node_ancestors cmd.

(** The outcome of a computation, without its value. *)
Definition ending {A : Type} (r : Outcome A) : Outcome unit :=
  match r with
  | Return _ => Return tt
  | Failure err => Failure err
  | OutOfFuel => OutOfFuel
  end.

(** Tokens outside any [if]. *)
Definition flat (tok : Template.Tok) : bool :=
  match tok with
  | Template.TText _ | Template.TField _ => true
  | _ => false
  end.

(** The values with another Name field. *)
Definition setName (v : manStruct) (name : string) : manStruct :=
  mkManStruct (ms_ProgramName v) (ms_Section v) (ms_CenterFooter v)
    (ms_LeftFooter v) (ms_CenterHeader v) name (ms_UseLine v)
    (ms_CommandPath v) (ms_Description v) (ms_SynFlags v) (ms_HasFlags v)
    (ms_Flags v) (ms_HasInheritedFlags v) (ms_InheritedFlags v)
    (ms_HasSeeAlso v) (ms_SeeAlsos v) (ms_HasAuthor v) (ms_Author v)
    (ms_HasEnvironment v) (ms_Environment v) (ms_HasFiles v) (ms_Files v)
    (ms_HasBugs v) (ms_Bugs v) (ms_HasExamples v) (ms_Examples v).

(** The NAME section that the built-in template spells out. *)
Definition fixedNameSection : string :=
  ".SH NAME" +:+ nl +:+ ".PP" +:+ nl +:+
  "zap\-publish \- Publish into MQTT" +:+ nl.

(** A section of the built-in template that is printed on a
    condition: a line end, the heading, a line end and the text. *)
Definition optionalSection (has : bool) (heading text : string) : string :=
  if has then nl +:+ heading +:+ nl +:+ text else EmptyString.

(** The page that the built-in template lays out for the values. *)
Definition builtInPage (v : manStruct) : string :=
  ".TH " +:+ dq +:+ ms_ProgramName v +:+ dq +:+ " " +:+
  dq +:+ ms_Section v +:+ dq +:+ " " +:+
  dq +:+ ms_CenterFooter v +:+ dq +:+ " " +:+
  dq +:+ ms_LeftFooter v +:+ dq +:+ " " +:+
  dq +:+ ms_CenterHeader v +:+ dq +:+ " " +:+ nl +:+
  ".nh" +:+ nl +:+
  ".ad l" +:+ nl +:+
  fixedNameSection +:+
  ".SH SYNOPSIS" +:+ nl +:+
  ".PP" +:+ nl +:+
  ".B " +:+ ms_CommandPath v +:+ nl +:+
  ms_SynFlags v +:+ nl +:+
  ".SH DESCRIPTION" +:+ nl +:+
  ".PP" +:+ nl +:+
  ms_Description v +:+
  optionalSection (ms_HasFlags v) ".SH OPTIONS" (ms_Flags v) +:+
  optionalSection (ms_HasInheritedFlags v)
    ".SH OPTIONS INHERITED FROM PARENT COMMANDS" (ms_InheritedFlags v) +:+
  optionalSection (ms_HasEnvironment v)
    (".SH Environment" +:+ nl +:+ ".PP") (ms_Environment v) +:+
  optionalSection (ms_HasFiles v)
    (".SH FILES" +:+ nl +:+ ".PP") (ms_Files v) +:+
  optionalSection (ms_HasBugs v)
    (".SH BUGS" +:+ nl +:+ ".PP") (ms_Bugs v) +:+
  optionalSection (ms_HasExamples v)
    (".SH EXAMPLES" +:+ nl +:+ ".PP") (ms_Examples v) +:+
  optionalSection (ms_HasAuthor v)
    (".SH AUTHOR" +:+ nl +:+ ".PP") (ms_Author v) +:+
  optionalSection (ms_HasSeeAlso v) ".SH SEE ALSO" (ms_SeeAlsos v) +:+
  nl +:+
  "." +:+ dq +:+ " This file auto-generated by github.com/rjohnson/cobra-man" +:+
  nl.

(** The tokens of the built-in template. *)
Definition defaultTokens : list Template.Tok :=
  Eval vm_compute in default [] (Template.parse defaultManTemplate).

(** Whether a token refers to the field [name]. *)
Definition mentions (name : string) (tok : Template.Tok) : bool :=
  match tok with
  | Template.TField n | Template.TIf n => String.eqb n name
  | _ => false
  end.

(** A flag that takes part in the renderings. *)
Definition listed (flag : Flag) : bool := negb (unlisted flag).

(** The node [n] with its slice in the order [cs] and the slice of its
    parent in the order [ps]. *)
Definition reslice (n : Node) (cs ps : list Command) : Node :=
  mkNode (withCommands (node_self n) cs)
    match node_ancestors n with
    | [] => []
    | p :: rest => withCommands p ps :: rest
    end.

(** A tree whose slices are in the order of the names, as far as a run
    goes: at the command and at every documented command under it. *)
#[warnings="-register-all"]
Inductive sortedTree : Command -> Prop :=
| sortedTree_intro (c : Command) :
    StronglySorted byName (cmd_commands c) ->
    Forall (fun k => documented k = true -> sortedTree k) (cmd_commands c) ->
    sortedTree c.

(** The documented nodes of a tree, children before their parent and
    the children in the order of the slice; the top command is listed
    whether it is documented or not. *)
Fixpoint postorder (c : Command) (ancestors : list Command) : list Node :=
  flat_map
    (fun k => if documented k then postorder k (c :: ancestors) else [])
    (cmd_commands c)
  ++ [mkNode c ancestors].

(** A run from [st] that walks the tree of [self] in that order and
    leaves the tree as it is: the files made are files of a first part
    of the nodes of [postorder], of all of them when the run returns,
    and then the run gives back [self]. *)
Definition postWalk (self : Command) (ancestors : list Command) (st : State)
    (res : State * Outcome Command) : Prop :=
  exists pages : list Page,
    st_world res.1 = st_world st ++ pages
    /\ page_node <$> pages `prefix_of` postorder self ancestors
    /\ (forall c' : Command,
          res.2 = Return c' ->
          c' = self /\ page_node <$> pages = postorder self ancestors).

(** A command without its slice. *)
Definition bare (c : Command) : Command := withCommands c [].

(** The commands of a tree, each without its slice and with the names
    of the commands above it. *)
Fixpoint census (above : list string) (c : Command)
  : list (list string * Command) :=
  (above, bare c)
  :: flat_map (fun k => census (above ++ [cmd_Name c]) k) (cmd_commands c).

(** A text without the byte [%], and a text without a space. *)
Definition noPercent (s : string) : bool := negb (inCutset percent s).
Definition noSpace (s : string) : bool := negb (inCutset space s).

(** A text that [strings.TrimRight] with the cutset of [printFlags]
    leaves as it is. *)
Definition trimmed (s : string) : Prop := TrimRight s (" " +:+ nl) = s.

Section Vocabulary.

Context {ext : Externals}.

(** The format of a flag in its long form only. *)
Definition longFormat (flag : Flag) : string :=
  ".TP" +:+ nl +:+ "\fB\-\-" +:+ backslashify (flag_Name flag) +:+ "\fP" +:+
  (if nonEmpty (flag_NoOptDefVal flag) then "[=\fI%s\fR]" else "=\fI%s\fR") +:+
  nl +:+ "%s" +:+ nl.

(** The reference to the page of a parent, and to the page of the
    command [c] under the dashed path [path]. *)
Definition parentEntry (cmd : Node) (section : string) : list string :=
  match Parent cmd with
  | Some parent =>
      [".BR " +:+ Replace (CommandPath parent) space "\-" +:+
       " (" +:+ section +:+ ")"]
  | None => []
  end.

Definition entry (path section : string) (c : Command) : string :=
  ".BR " +:+ Replace path space "\-" +:+ "\-" +:+ cmd_Name c +:+
  " (" +:+ section +:+ ")".

(** The cross references of a node, given the children [others] of
    its parent that count as its siblings: the entry of the parent,
    the documented siblings in alphabetical order, the documented
    children in alphabetical order; and whether there is any. *)
Definition seeAlsoOf (cmd : Node) (section : string)
    (others : list Command) (result : bool * string) : Prop :=
  exists siblings children : list Command,
    siblings ≡ₚ filter (fun c => documented c) others
    /\ StronglySorted byName siblings
    /\ children ≡ₚ filter (fun c => documented c) (cmd_commands (node_self cmd))
    /\ StronglySorted byName children
    /\ let entries :=
         parentEntry cmd section
         ++ (entry (parentPath cmd) section <$> siblings)
         ++ (entry (CommandPath cmd) section <$> children) in
       result = (notNil entries, Join entries ("," +:+ nl)).

(** What [generateManPage] renders for a command before it writes: a
    parse error, or the text with the error that stopped the
    rendering. *)
Definition renderedPage (cmd : Node) (opts : GenerateManOptions) (now : Z)
  : error + (string * option error) :=
  match parseTemplate
          (if nonEmpty (UseTemplate opts) then UseTemplate opts
           else defaultManTemplate) with
  | inl err => inl err
  | inr parsedTemplate => inr (parsedTemplate (manValues cmd opts now))
  end.

(** The name of the file of the page of a node. *)
Definition pageFile (opts : GenerateManOptions) (n : Node) : string :=
  filepath_Join (Directory opts)
    (Replace (CommandPath n) space
       (if nonEmpty (CommandSeparator opts) then CommandSeparator opts else "-")
     +:+ "." +:+
     (if nonEmpty (Section_ opts) then Section_ opts else "1")).

(** What making the page of the node [n] in the new file [file] comes
    to, after the files of [world], in terms of the collaborators: the
    bytes that reach the file, and how it ends. A template that does
    not parse leaves the file empty and ends with the parse error;
    otherwise the rendered text is written, and an error of the
    writing, or else of the rendering, ends it. *)
Definition pageResult (opts : GenerateManOptions) (world : World) (n : Node)
    (file : string) : string * Outcome unit :=
  let world' := world ++ [mkPage n file EmptyString] in
  match renderedPage n opts (time_Now world') with
  | inl err => (EmptyString, Failure err)
  | inr (text, renderErr) =>
      let result := file_Write world' file text in
      (result.1,
       match result.2 with
       | Some err => Failure err
       | None =>
           match renderErr with
           | Some err => Failure err
           | None => Return tt
           end
       end)
  end.

(** The page [p] was made after the files of [world]: it has the name
    of the file of its node, creating the file succeeded, and making
    the page left the bytes of [p] and ended with [r]. *)
Definition emitted (opts : GenerateManOptions) (world : World) (p : Page)
    (r : Outcome unit) : Prop :=
  page_file p = pageFile opts (page_node p)
  /\ os_Create world (page_file p) = None
  /\ (page_body p, r) = pageResult opts world (page_node p) (page_file p).

(** The nodes that a run on [cmd] reaches: the node itself, whatever
    the order of its slice, and the nodes under it behind documented
    commands. *)
Definition reached (cmd n : Node) : Prop := sameNode cmd n \/ below cmd n.

(** The pages that a run adds to the files of [world], in the order of
    their creation, and how the run ends: every page but the last was
    written in full; the run ends well after the last page, or with the
    error of creating the file of one more node among [reach], or with
    the error of rendering or writing the last page. *)
Inductive Pages (opts : GenerateManOptions) (reach : Node -> Prop)
  : World -> list Page -> Outcome unit -> Prop :=
| Pages_done (world : World) :
    Pages opts reach world [] (Return tt)
| Pages_page (world : World) (p : Page) (pages : list Page) (r : Outcome unit) :
    emitted opts world p (Return tt) ->
    Pages opts reach (world ++ [p]) pages r ->
    Pages opts reach world (p :: pages) r
| Pages_no_file (world : World) (n : Node) (err : error) :
    reach n ->
    os_Create world (pageFile opts n) = Some err ->
    Pages opts reach world [] (Failure err)
| Pages_bad_page (world : World) (p : Page) (err : error) :
    emitted opts world p (Failure err) ->
    Pages opts reach world [p] (Failure err).

(** The last steps of [GenerateManPages] for the node [cmd], whose loop
    left the slice [commands]: the file is created and the page
    generated. *)
Definition ownPage (cmd : Node) (commands : list Command) : M Command :=
  opts ← getOpts;
  f ← Create cmd (pageFile opts cmd);
  generateManPage cmd f;;
  mret (withCommands (node_self cmd) (sort_byName commands)).

(** What a run of [GenerateManPages] on [cmd] from the state [st] comes
    to: it does not run out of fuel; the options change in the program
    name at most, and only when that was empty; the files made are files
    for nodes under [cmd], followed by the file of [cmd] itself, if the
    run got that far. *)
Record walked (cmd : Node) (st : State) (res : State * Outcome Command)
  : Prop := mkWalked {
  walked_total : res.2 <> OutOfFuel;
  walked_keep :
    nonEmpty (ProgramName (st_opts st)) = true -> st_opts res.1 = st_opts st;
  walked_frame :
    st_opts res.1 = setProgramName (st_opts st) (ProgramName (st_opts res.1));
  walked_named :
    nonEmpty (CommandPath cmd) = true ->
    nonEmpty (ProgramName (st_opts res.1)) = true;
  walked_first :
    nonEmpty (ProgramName (st_opts st)) = false ->
    nonEmpty (CommandPath cmd) = true ->
    ProgramName (st_opts res.1) = CommandPath cmd;
  walked_height :
    forall c' : Command, res.2 = Return c' -> height c' <= height (node_self cmd);
  walked_pages :
    exists under own : list Page,
      st_world res.1 = st_world st ++ under ++ own
      /\ Forall (fun p => below cmd (page_node p)) under
      /\ Forall (fun p => sameNode cmd (page_node p)) own
      /\ List.length own <= 1
      /\ (forall c' : Command, res.2 = Return c' -> List.length own = 1)
      /\ Pages (st_opts res.1) (reached cmd) (st_world st) (under ++ own)
           (ending res.2)
}.

(** The same for the loop over the slice of [cmd]. *)
Record ranged (cmd : Node) (bound : nat) (st : State)
    (res : State * Outcome (list Command)) : Prop := mkRanged {
  ranged_total : res.2 <> OutOfFuel;
  ranged_keep :
    nonEmpty (ProgramName (st_opts st)) = true -> st_opts res.1 = st_opts st;
  ranged_frame :
    st_opts res.1 = setProgramName (st_opts st) (ProgramName (st_opts res.1));
  ranged_height :
    forall arr : list Command,
      res.2 = Return arr -> Forall (fun k => height k <= bound) arr;
  ranged_pages :
    exists pages : list Page,
      st_world res.1 = st_world st ++ pages
      /\ Forall (fun p => below cmd (page_node p)) pages
      /\ Pages (st_opts res.1) (below cmd) (st_world st) pages (ending res.2)
}.

(** The synopsis token of a flag: the shorthand when there is one that
    is not deprecated, the long form otherwise. *)
Definition synToken (flag : Flag) : string :=
  ".RB [ " +:+
  (if nonEmpty (flag_Shorthand flag)
      && negb (nonEmpty (flag_ShorthandDeprecated flag))
   then "\-" +:+ flag_Shorthand flag
   else "\-\-" +:+ backslashify (flag_Name flag)) +:+
  " ]" +:+ nl.

(** The names of a flag in a block of options: shorthand and long form,
    or the long form alone. *)
Definition flagNames (flag : Flag) : string :=
  if nonEmpty (flag_Shorthand flag)
     && negb (nonEmpty (flag_ShorthandDeprecated flag))
  then "\fB\-" +:+ flag_Shorthand flag +:+ "\fP, \fB\-\-" +:+
       backslashify (flag_Name flag) +:+ "\fP"
  else "\fB\-\-" +:+ backslashify (flag_Name flag) +:+ "\fP".

(** The tokens of the listed flags of a set, one after the other. *)
Definition synTokens (flags : list Flag) : string :=
  Join (synToken <$> filter (fun flag => listed flag) flags) EmptyString.

(** The block of a flag in the full rendering: the format of the flag
    filled with the escaped default value and the escaped usage, cut
    after its last byte that is neither a space nor a line end. *)
Definition optionBlock (flag : Flag) : string :=
  TrimRight
    (Sprintf (flagFormat flag)
       [backslashify (flag_DefValue flag); backslashify (flag_Usage flag)])
    (" " +:+ nl).

(** The blocks of the listed flags of a set, one after the other. *)
Definition optionBlocks (flags : list Flag) : string :=
  Join (optionBlock <$> filter (fun flag => listed flag) flags) EmptyString.

(** The block of a flag before trimming: names, value placeholder with
    the default value (in brackets when the flag can go without value),
    and the usage on the next line. *)
Definition flagBlock (flag : Flag) : string :=
  ".TP" +:+ nl +:+ flagNames flag +:+
  (if nonEmpty (flag_NoOptDefVal flag) then "[" else EmptyString) +:+
  "=\fI" +:+ backslashify (flag_DefValue flag) +:+ "\fR" +:+
  (if nonEmpty (flag_NoOptDefVal flag) then "]" else EmptyString) +:+
  nl +:+ backslashify (flag_Usage flag) +:+ nl.

End Vocabulary.

(** * Properties *)

(** ** Strings *)

Lemma append_cons (c : ascii) (s t : string) :
  String c s +:+ t = String c (s +:+ t).
Proof. reflexivity. Qed.

Lemma append_assoc (a b c : string) : (a +:+ b) +:+ c = a +:+ (b +:+ c).
Proof.
  induction a as [|x a IH]; [done |]. by rewrite !append_cons, IH.
Qed.

Lemma nonEmpty_append_l (a b : string) :
  nonEmpty a = true -> nonEmpty (a +:+ b) = true.
Proof. by destruct a. Qed.

Lemma nonEmpty_append_r (a b : string) :
  nonEmpty b = true -> nonEmpty (a +:+ b) = true.
Proof. destruct a; [done | by intros]. Qed.

Lemma append_nil_r (s : string) : s +:+ EmptyString = s.
Proof.
  induction s as [|c s IH]; [done |]. by rewrite append_cons, IH.
Qed.

Lemma Join_glue (x : string) (l : list string) :
  Join (x :: l) EmptyString = x +:+ Join l EmptyString.
Proof.
  unfold Join. destruct l as [|y l]; simpl; [by rewrite append_nil_r | done].
Qed.

Lemma Join_glue_app (l1 l2 : list string) :
  Join (l1 ++ l2) EmptyString = Join l1 EmptyString +:+ Join l2 EmptyString.
Proof.
  induction l1 as [|x l1 IH]; [done |].
  change ((x :: l1) ++ l2) with (x :: (l1 ++ l2)).
  by rewrite !Join_glue, IH, append_assoc.
Qed.

Section FlagFormatter.

Context {ext : Externals}.

Lemma printSynFlags_app (buf : string) (l1 l2 : FlagSet) :
  printSynFlags buf (l1 ++ l2) = printSynFlags (printSynFlags buf l1) l2.
Proof. apply fold_left_app. Qed.

Lemma printFlags_app (buf : string) (l1 l2 : FlagSet) :
  printFlags buf (l1 ++ l2) = printFlags (printFlags buf l1) l2.
Proof. apply fold_left_app. Qed.

Lemma Sprintf_long_form (name : string) :
  Sprintf "\fB\-\-%s\fP" [name] = "\fB\-\-" +:+ name +:+ "\fP".
Proof. reflexivity. Qed.

Lemma Sprintf_syn_long (name : string) :
  Sprintf (".RB [ \-\-%s ]" +:+ nl) [name]
  = ".RB [ \-\-" +:+ name +:+ " ]" +:+ nl.
Proof. reflexivity. Qed.

Lemma flagFormat_long (flag : Flag) :
  nonEmpty (flag_ShorthandDeprecated flag) = true ->
  flagFormat flag = longFormat flag.
Proof.
  intros Hdep. unfold flagFormat, longFormat. rewrite Hdep.
  rewrite andb_false_r, Sprintf_long_form.
  destruct (nonEmpty (flag_NoOptDefVal flag));
    rewrite ?append_assoc; reflexivity.
Qed.

Lemma printSynFlags_cons (buf : string) (flag : Flag) (l : FlagSet) :
  printSynFlags buf (flag :: l) = printSynFlags (printSynFlag buf flag) l.
Proof. reflexivity. Qed.

Lemma printFlags_cons (buf : string) (flag : Flag) (l : FlagSet) :
  printFlags buf (flag :: l) = printFlags (printFlag buf flag) l.
Proof. reflexivity. Qed.

Lemma printSynFlag_unlisted (buf : string) (flag : Flag) :
  unlisted flag = true -> printSynFlag buf flag = buf.
Proof. unfold unlisted, printSynFlag. by intros ->. Qed.

Lemma printFlag_unlisted (buf : string) (flag : Flag) :
  unlisted flag = true -> printFlag buf flag = buf.
Proof. unfold unlisted, printFlag. by intros ->. Qed.

Lemma printSynFlag_long (buf : string) (flag : Flag) :
  unlisted flag = false ->
  nonEmpty (flag_ShorthandDeprecated flag) = true ->
  printSynFlag buf flag
  = buf +:+ (".RB [ \-\-" +:+ backslashify (flag_Name flag) +:+ " ]" +:+ nl).
Proof.
  unfold unlisted, printSynFlag. intros -> ->.
  by rewrite andb_false_r, Sprintf_syn_long.
Qed.

Lemma printFlag_long (buf : string) (flag : Flag) :
  unlisted flag = false ->
  nonEmpty (flag_ShorthandDeprecated flag) = true ->
  printFlag buf flag
  = buf +:+
    TrimRight
      (Sprintf (longFormat flag)
         [backslashify (flag_DefValue flag); backslashify (flag_Usage flag)])
      (" " +:+ nl).
Proof.
  unfold unlisted, printFlag. intros -> Hdep.
  by rewrite flagFormat_long.
Qed.

Lemma printSynFlag_token (buf : string) (flag : Flag) :
  listed flag = true -> printSynFlag buf flag = buf +:+ synToken flag.
Proof.
  unfold listed, unlisted, printSynFlag, synToken.
  intros Hlisted. apply negb_true_iff in Hlisted. rewrite Hlisted.
  by destruct (nonEmpty (flag_Shorthand flag)
               && negb (nonEmpty (flag_ShorthandDeprecated flag))).
Qed.

Lemma printFlag_block_of (buf : string) (flag : Flag) :
  listed flag = true -> printFlag buf flag = buf +:+ optionBlock flag.
Proof.
  unfold listed, unlisted, printFlag, optionBlock.
  intros Hlisted. apply negb_true_iff in Hlisted. by rewrite Hlisted.
Qed.

Lemma listed_unlisted (flag : Flag) : listed flag = negb (unlisted flag).
Proof. reflexivity. Qed.

Lemma synTokens_cons (flag : Flag) (flags : list Flag) :
  synTokens (flag :: flags)
  = (if listed flag then synToken flag else EmptyString) +:+ synTokens flags.
Proof.
  unfold synTokens. destruct (listed flag) eqn:Hlisted.
  - rewrite filter_cons_True by (by rewrite Hlisted).
    by rewrite fmap_cons, Join_glue.
  - by rewrite filter_cons_False by (rewrite Hlisted; simpl; tauto).
Qed.

Lemma synTokens_app (l1 l2 : list Flag) :
  synTokens (l1 ++ l2) = synTokens l1 +:+ synTokens l2.
Proof. unfold synTokens. by rewrite filter_app, fmap_app, Join_glue_app. Qed.

Lemma optionBlocks_cons (flag : Flag) (flags : list Flag) :
  optionBlocks (flag :: flags)
  = (if listed flag then optionBlock flag else EmptyString) +:+
    optionBlocks flags.
Proof.
  unfold optionBlocks. destruct (listed flag) eqn:Hlisted.
  - rewrite filter_cons_True by (by rewrite Hlisted).
    by rewrite fmap_cons, Join_glue.
  - by rewrite filter_cons_False by (rewrite Hlisted; simpl; tauto).
Qed.

Lemma optionBlocks_app (l1 l2 : list Flag) :
  optionBlocks (l1 ++ l2) = optionBlocks l1 +:+ optionBlocks l2.
Proof. unfold optionBlocks. by rewrite filter_app, fmap_app, Join_glue_app. Qed.

(** The synopsis rendering, token by token. *)
Lemma printSynFlags_tokens (buf : string) (flags : list Flag) :
  printSynFlags buf flags = buf +:+ synTokens flags.
Proof.
  revert buf. induction flags as [|flag flags IH]; intros buf.
  - unfold synTokens. simpl. by rewrite append_nil_r.
  - rewrite printSynFlags_cons, IH, synTokens_cons.
    destruct (listed flag) eqn:Hlisted.
    + by rewrite printSynFlag_token, append_assoc.
    + rewrite printSynFlag_unlisted; [done |].
      rewrite listed_unlisted in Hlisted. by apply negb_false_iff in Hlisted.
Qed.

(** The full rendering, block by block. *)
Lemma printFlags_blocks (buf : string) (flags : list Flag) :
  printFlags buf flags = buf +:+ optionBlocks flags.
Proof.
  revert buf. induction flags as [|flag flags IH]; intros buf.
  - unfold optionBlocks. simpl. by rewrite append_nil_r.
  - rewrite printFlags_cons, IH, optionBlocks_cons.
    destruct (listed flag) eqn:Hlisted.
    + by rewrite printFlag_block_of, append_assoc.
    + rewrite printFlag_unlisted; [done |].
      rewrite listed_unlisted in Hlisted. by apply negb_false_iff in Hlisted.
Qed.

(** C3. Both renderings of a flag set are the buffer they start from,
    followed by the pieces of the listed flags in the order of the
    set: the tokens [synTokens] in the synopsis, the blocks
    [optionBlocks] in the full rendering. A flag whose deprecated
    marker is not empty or whose hidden marker is set adds nothing to
    either: both are the buffer, the pieces of the flags before it and
    the pieces of the flags after it, which is the rendering of the set
    without the flag. A flag that is listed and whose shorthand is
    deprecated adds its long form only, in its place: the token
    [.RB [ \-\-name ]] to the synopsis, and to the full rendering the
    block of the format [longFormat], in which the shorthand does not
    occur. *)
Theorem C3_hidden_deprecated_flags
    (buf : string) (before after : FlagSet) (flag : Flag) :
  (unlisted flag = true ->
     printSynFlags buf (before ++ flag :: after)
       = buf +:+ synTokens before +:+ synTokens after
     /\ printFlags buf (before ++ flag :: after)
       = buf +:+ optionBlocks before +:+ optionBlocks after
     /\ printSynFlags buf (before ++ flag :: after)
       = printSynFlags buf (before ++ after)
     /\ printFlags buf (before ++ flag :: after)
       = printFlags buf (before ++ after))
  /\ (unlisted flag = false ->
      nonEmpty (flag_ShorthandDeprecated flag) = true ->
      printSynFlags buf (before ++ flag :: after)
        = buf +:+ synTokens before +:+
          (".RB [ \-\-" +:+ backslashify (flag_Name flag) +:+ " ]" +:+ nl) +:+
          synTokens after
      /\ printFlags buf (before ++ flag :: after)
        = buf +:+ optionBlocks before +:+
          TrimRight
            (Sprintf (longFormat flag)
               [backslashify (flag_DefValue flag);
                backslashify (flag_Usage flag)])
            (" " +:+ nl) +:+
          optionBlocks after
      /\ printSynFlags buf (before ++ flag :: after)
        = printSynFlags
            (printSynFlags buf before +:+
             ".RB [ \-\-" +:+ backslashify (flag_Name flag) +:+ " ]" +:+ nl)
            after
      /\ printFlags buf (before ++ flag :: after)
        = printFlags
            (printFlags buf before +:+
             TrimRight
               (Sprintf (longFormat flag)
                  [backslashify (flag_DefValue flag);
                   backslashify (flag_Usage flag)])
               (" " +:+ nl))
            after).
Proof.
  rewrite !printSynFlags_tokens, !printFlags_blocks.
  rewrite !synTokens_app, !optionBlocks_app, synTokens_cons,
    optionBlocks_cons, listed_unlisted.
  split.
  - intros ->. simpl. by split_and!.
  - intros -> Hdep. simpl.
    assert (Htoken : synToken flag
                     = ".RB [ \-\-" +:+ backslashify (flag_Name flag) +:+
                       " ]" +:+ nl).
    { unfold synToken. by rewrite Hdep, andb_false_r. }
    assert (Hblock : optionBlock flag
                     = TrimRight
                         (Sprintf (longFormat flag)
                            [backslashify (flag_DefValue flag);
                             backslashify (flag_Usage flag)])
                         (" " +:+ nl)).
    { unfold optionBlock. by rewrite flagFormat_long. }
    rewrite Htoken, Hblock. split_and!; by rewrite ?append_assoc.
Qed.

End FlagFormatter.

(** The hidden flag [secret] leaves no trace between [verbose] and
    [config], and [legacy], whose shorthand is deprecated, shows in its
    long form. *)
Lemma C3_hidden_deprecated_flags_witness :
  (printSynFlags (ext := standIn) EmptyString
       ([Example.verbose] ++ Example.secret :: [Example.config])
     = EmptyString +:+ synTokens (ext := standIn) [Example.verbose] +:+
       synTokens (ext := standIn) [Example.config]
   /\ printFlags (ext := standIn) EmptyString
       ([Example.verbose] ++ Example.secret :: [Example.config])
     = EmptyString +:+ optionBlocks (ext := standIn) [Example.verbose] +:+
       optionBlocks (ext := standIn) [Example.config])
  /\ (printSynFlags (ext := standIn) EmptyString
        ([Example.verbose] ++ Example.legacy :: [Example.config])
      = EmptyString +:+ synTokens (ext := standIn) [Example.verbose] +:+
        (".RB [ \-\-" +:+
         backslashify (Externals := standIn) (flag_Name Example.legacy) +:+
         " ]" +:+ nl) +:+
        synTokens (ext := standIn) [Example.config]
      /\ printFlags (ext := standIn) EmptyString
           ([Example.verbose] ++ Example.legacy :: [Example.config])
         = EmptyString +:+ optionBlocks (ext := standIn) [Example.verbose] +:+
           TrimRight
             (Sprintf (ext := standIn) (longFormat (ext := standIn) Example.legacy)
                [backslashify (Externals := standIn) (flag_DefValue Example.legacy);
                 backslashify (Externals := standIn) (flag_Usage Example.legacy)])
             (" " +:+ nl) +:+
           optionBlocks (ext := standIn) [Example.config]).
Proof.
  split.
  - destruct (proj1 (C3_hidden_deprecated_flags (ext := standIn) EmptyString
                       [Example.verbose] [Example.config] Example.secret)
                eq_refl)
      as (Hsyn & Hfull & _).
    split; [exact Hsyn | exact Hfull].
  - destruct (proj2 (C3_hidden_deprecated_flags (ext := standIn) EmptyString
                       [Example.verbose] [Example.config] Example.legacy)
                eq_refl eq_refl)
      as (Hsyn & Hfull & _).
    split; [exact Hsyn | exact Hfull].
Defined.

Example legacy_synopsis :
  printSynFlags (ext := standIn) EmptyString
    [Example.verbose; Example.secret; Example.legacy; Example.gone;
     Example.config]
  = ".RB [ \-v ]" +:+ nl +:+ ".RB [ \-\-legacy ]" +:+ nl +:+
    ".RB [ \-\-config ]" +:+ nl.
Proof. reflexivity. Qed.

Example legacy_options :
  printFlags (ext := standIn) EmptyString [Example.secret; Example.legacy]
  = ".TP" +:+ nl +:+ "\fB\-\-legacy\fP=\fIoff\fR" +:+ nl +:+ "old switch".
Proof. reflexivity. Qed.

(** ** Cross references *)

Lemma byName_Less_true (a b : Command) : byName_Less a b = true -> byName a b.
Proof.
  unfold byName_Less, byName, String.le, String.ltb, String.leb.
  destruct (String.compare (cmd_Name a) (cmd_Name b)); done.
Qed.

Lemma byName_Less_false (a b : Command) : byName_Less a b = false -> byName b a.
Proof.
  unfold byName_Less, byName, String.le, String.ltb, String.leb.
  rewrite (String.compare_antisym (cmd_Name b) (cmd_Name a)).
  destruct (String.compare (cmd_Name a) (cmd_Name b)); done.
Qed.

#[local] Instance byName_trans : Transitive byName.
Proof.
  intros a b c Hab Hbc. unfold byName in *. by etrans.
Qed.

Lemma sortInsert_Permutation (x : Command) (l : list Command) :
  sortInsert x l ≡ₚ x :: l.
Proof.
  induction l as [|y l IH]; simpl; [done |].
  destruct (byName_Less y x); [| done].
  rewrite IH. apply Permutation_swap.
Qed.

Lemma sort_byName_Permutation (l : list Command) : sort_byName l ≡ₚ l.
Proof.
  induction l as [|x l IH]; simpl; [done |].
  by rewrite sortInsert_Permutation, IH.
Qed.

Lemma sortInsert_sorted (x : Command) (l : list Command) :
  StronglySorted byName l -> StronglySorted byName (sortInsert x l).
Proof.
  induction 1 as [|y l Hl IH Hy]; simpl.
  - repeat constructor.
  - destruct (byName_Less y x) eqn:Hlt.
    + constructor; [done |].
      rewrite sortInsert_Permutation. constructor; [| done].
      by apply byName_Less_true.
    + apply byName_Less_false in Hlt.
      constructor; [by constructor |].
      constructor; [done |].
      eapply Forall_impl; [exact Hy |]. intros z Hz. by etrans.
Qed.

Lemma sort_byName_sorted (l : list Command) :
  StronglySorted byName (sort_byName l).
Proof.
  induction l as [|x l IH]; simpl; [constructor |].
  by apply sortInsert_sorted.
Qed.

Lemma byName_not_Less (a b : Command) : byName a b -> byName_Less b a = false.
Proof.
  unfold byName_Less, byName, String.le, String.ltb, String.leb.
  rewrite (String.compare_antisym (cmd_Name a) (cmd_Name b)).
  by destruct (String.compare (cmd_Name b) (cmd_Name a)).
Qed.

(** Sorting a slice that is in the order of the names leaves it as it
    is: the slices that cobra hands out sorted are not changed by
    [generateSeeAlso]. *)
Lemma sort_byName_sorted_id (l : list Command) :
  StronglySorted byName l -> sort_byName l = l.
Proof.
  induction 1 as [|x l Hl IH Hx]; [done |].
  simpl. rewrite IH. destruct Hx as [|y l Hxy _]; [done |].
  simpl. by rewrite byName_not_Less.
Qed.

Lemma StronglySorted_filter {A : Type} (R : relation A) (P : A -> Prop)
    `{!forall x, Decision (P x)} (l : list A) :
  StronglySorted R l -> StronglySorted R (filter P l).
Proof.
  induction 1 as [|x l Hl IH Hx]; [constructor |].
  rewrite filter_cons. destruct (decide (P x)); [| done].
  constructor; [done |].
  apply Forall_forall. intros y [_ Hy]%list_elem_of_filter.
  by eapply Forall_forall in Hx.
Qed.

Section SeeAlso.

Context {ext : Externals}.

Lemma Sprintf_parent_entry (path section : string) :
  Sprintf ".BR %s (%s)" [path; section]
  = ".BR " +:+ path +:+ " (" +:+ section +:+ ")".
Proof. reflexivity. Qed.

(** The loop over the siblings. *)
Lemma fold_siblings (skip : Command -> bool) (f : Command -> string)
    (l : list Command) (acc : list string) :
  fold_left (fun seealsos c => if skip c then seealsos else seealsos ++ [f c])
    l acc
  = acc ++ (f <$> filter (fun c => negb (skip c)) l).
Proof.
  revert acc. induction l as [|c l IH]; intros acc; simpl.
  - by rewrite app_nil_r.
  - rewrite IH. destruct (skip c) eqn:Hskip.
    + rewrite filter_cons_False; [done |]. rewrite Hskip; simpl; tauto.
    + rewrite filter_cons_True by (rewrite Hskip; simpl; tauto).
      by rewrite fmap_cons, <- app_assoc.
Qed.

(** The loop over the children. *)
Lemma fold_children (skip : Command -> bool) (f : Command -> string)
    (l : list Command) (has : bool) (acc : list string) :
  fold_left
    (fun '(hasSeeAlso, seealsos) c =>
       if skip c then (hasSeeAlso, seealsos)
       else (true, seealsos ++ [f c]))
    l (has, acc)
  = (has || notNil (filter (fun c => negb (skip c)) l),
     acc ++ (f <$> filter (fun c => negb (skip c)) l)).
Proof.
  revert has acc. induction l as [|c l IH]; intros has acc; simpl.
  - by rewrite app_nil_r, orb_false_r.
  - destruct (skip c) eqn:Hskip; rewrite IH.
    + rewrite filter_cons_False; [done |]. rewrite Hskip; simpl; tauto.
    + rewrite filter_cons_True by (rewrite Hskip; simpl; tauto).
      rewrite fmap_cons, <- app_assoc. simpl. by rewrite orb_true_r.
Qed.

Lemma filter_documented (l : list Command) :
  filter (fun c => negb (negb (cmd_IsAvailableCommand c)
                         || cmd_IsAdditionalHelpTopicCommand c)) l
  = filter (fun c => documented c) l.
Proof. reflexivity. Qed.

Lemma filter_sibling (name : string) (l : list Command) :
  filter (fun c => negb (negb (cmd_IsAvailableCommand c)
                         || cmd_IsAdditionalHelpTopicCommand c
                         || String.eqb (cmd_Name c) name)) l
  = filter (fun c => documented c)
      (filter (fun c => cmd_Name c <> name) l).
Proof.
  rewrite list_filter_filter. apply list_filter_iff. intros c.
  unfold documented.
  destruct (String.eqb_spec (cmd_Name c) name) as [Heq|Hne];
    rewrite ?orb_true_r, ?orb_false_r; simpl; [tauto |].
  destruct (negb _ || _); simpl; tauto.
Qed.

Lemma notNil_app {A : Type} (l1 l2 : list A) :
  notNil (l1 ++ l2) = notNil l1 || notNil l2.
Proof. by destruct l1, l2. Qed.

Lemma notNil_fmap {A B : Type} (f : A -> B) (l : list A) :
  notNil (f <$> l) = notNil l.
Proof. by destruct l. Qed.

(** What [generateSeeAlso] computes, loop by loop. *)
Lemma generateSeeAlso_eq (cmd : Node) (section : string) :
  let siblings :=
    filter (fun c => documented c)
      (filter (fun c => cmd_Name c <> Name cmd)
         (sort_byName (parentCommands cmd))) in
  let children :=
    filter (fun c => documented c)
      (sort_byName (cmd_commands (node_self cmd))) in
  generateSeeAlso cmd section
  = (HasParent cmd || notNil children,
     Join (parentEntry cmd section
           ++ (entry (parentPath cmd) section <$> siblings)
           ++ (entry (CommandPath cmd) section <$> children))
       ("," +:+ nl)).
Proof.
  unfold generateSeeAlso, parentEntry, parentCommands, parentPath, HasParent,
    Parent.
  destruct (node_ancestors cmd) as [|parent rest]; simpl.
  - rewrite fold_children, filter_documented. reflexivity.
  - rewrite fold_siblings, filter_sibling, fold_children, filter_documented.
    rewrite Sprintf_parent_entry, <- app_assoc. reflexivity.
Qed.

Lemma generateSeeAlso_spec (cmd : Node) (section : string) :
  seeAlsoOf cmd section
    (filter (fun c => cmd_Name c <> Name cmd) (parentCommands cmd))
    (generateSeeAlso cmd section).
Proof.
  exists (filter (fun c => documented c)
            (filter (fun c => cmd_Name c <> Name cmd)
               (sort_byName (parentCommands cmd)))),
         (filter (fun c => documented c)
            (sort_byName (cmd_commands (node_self cmd)))).
  split_and!.
  - by rewrite sort_byName_Permutation.
  - do 2 apply StronglySorted_filter. apply sort_byName_sorted.
  - by rewrite sort_byName_Permutation.
  - apply StronglySorted_filter, sort_byName_sorted.
  - simpl. rewrite generateSeeAlso_eq. f_equal.
    rewrite !notNil_app, !notNil_fmap.
    unfold parentEntry, parentCommands, HasParent, Parent.
    destruct (node_ancestors cmd); simpl; [done |].
    reflexivity.
Qed.

(** C4, amended. The cross references of a node are, in this order:
    the entry of the parent when there is one; the documented
    children of the parent whose name is not the name of the node, in
    alphabetical order; the documented children of the node, in
    alphabetical order. The boolean tells whether there is any
    entry. *)
Theorem C4_see_also_order (cmd : Node) (section : string) :
  seeAlsoOf cmd section
    (filter (fun c => cmd_Name c <> Name cmd) (parentCommands cmd))
    (generateSeeAlso cmd section).
Proof. apply generateSeeAlso_spec. Qed.

Lemma filter_all {A : Type} (P : A -> Prop) `{!forall x, Decision (P x)}
    (l : list A) :
  (forall x, x ∈ l -> P x) -> filter P l = l.
Proof.
  induction l as [|x l IH]; intros Hall; [done |].
  rewrite filter_cons_True by (apply Hall; left).
  f_equal. apply IH. intros y Hy. apply Hall. by right.
Qed.

(** Among children of distinct names, the children whose name is not
    the name of the node are the children other than the node. *)
Lemma filter_other_names (l : list Command) (i : nat) (c : Command) :
  NoDup (cmd_Name <$> l) ->
  l !! i = Some c ->
  filter (fun k => cmd_Name k <> cmd_Name c) l = delete i l.
Proof.
  revert i. induction l as [|k l IH]; intros i Hnodup Hi; [done |].
  rewrite fmap_cons in Hnodup. apply NoDup_cons in Hnodup as [Hk Hnodup].
  destruct i as [|i]; simpl in Hi.
  - injection Hi as ->. rewrite filter_cons_False by tauto. simpl.
    apply filter_all. intros k' Hk' Heq. apply Hk.
    rewrite <- Heq. by apply list_elem_of_fmap_2.
  - rewrite filter_cons_True.
    + simpl. f_equal. by apply IH.
    + intros Heq. apply Hk. rewrite Heq.
      apply list_elem_of_fmap_2. by eapply list_elem_of_lookup_2.
Qed.

(** C4 as stated, for a node among children of distinct names: its
    siblings are the other children of its parent. *)
Lemma see_also_distinct_names (cmd : Node) (section : string) (i : nat) :
  NoDup (cmd_Name <$> parentCommands cmd) ->
  parentCommands cmd !! i = Some (node_self cmd) ->
  seeAlsoOf cmd section (delete i (parentCommands cmd))
    (generateSeeAlso cmd section).
Proof.
  intros Hnodup Hi.
  rewrite <- (filter_other_names _ i (node_self cmd)) by done.
  destruct (generateSeeAlso_spec cmd section)
    as (siblings & children & H).
  by exists siblings, children.
Qed.

End SeeAlso.

(** C4 as stated fails on [pair]: the page of the first [twin] should
    list the second one, which is another documented child of the
    parent, and it lists the parent only. *)
Lemma C4_twin_counterexample :
  let cmd := mkNode Example.twin1 [Example.pair] in
  generateSeeAlso (ext := standIn) cmd "1" = (true, ".BR pair (1)")
  /\ ~ seeAlsoOf cmd "1"
         (delete 0 (parentCommands cmd))
         (generateSeeAlso (ext := standIn) cmd "1").
Proof.
  split; [reflexivity |].
  intros (siblings & children & Hs & _ & Hc & _ & Heq).
  vm_compute in Hs. apply Permutation_singleton_r in Hs. subst siblings.
  vm_compute in Hc. apply Permutation_nil_r in Hc. subst children.
  vm_compute in Heq. discriminate Heq.
Qed.

(** ** Page model *)

Lemma Join_nonEmpty (l : list string) (sep : string) :
  Forall (fun e => nonEmpty e = true) l ->
  nonEmpty (Join l sep) = notNil l.
Proof.
  intros Hl. destruct Hl as [|x l Hx Hl]; [done |].
  unfold Join. simpl. destruct l; [done |]. by apply nonEmpty_append_l.
Qed.

Section PageModel.

Context {ext : Externals}.

(** The entries behind the result of [generateSeeAlso]. *)
Lemma generateSeeAlso_entries (cmd : Node) (section : string) :
  exists entries : list string,
    generateSeeAlso cmd section = (notNil entries, Join entries ("," +:+ nl))
    /\ Forall (fun e => nonEmpty e = true) entries.
Proof.
  eexists. split.
  - rewrite generateSeeAlso_eq. f_equal.
    rewrite !notNil_app, !notNil_fmap.
    unfold parentEntry, parentCommands, HasParent, Parent.
    destruct (node_ancestors cmd); simpl; reflexivity.
  - rewrite !Forall_app. split_and!.
    + unfold parentEntry. destruct (Parent cmd); by repeat constructor.
    + apply Forall_fmap, Forall_true. done.
    + apply Forall_fmap, Forall_true. done.
Qed.

(** The bugs and examples fields: the examples text lands in the bugs
    field, and the examples field stays empty. *)
Lemma manValues_Examples (cmd : Node) (opts : GenerateManOptions) (now : Z) :
  let c := node_self cmd in
  let v := manValues cmd opts now in
  ms_Examples v = EmptyString
  /\ (ms_HasExamples v = true ->
      ms_Bugs v
      = simpleToTroff
          (chosen (annotation c "man-examples-section") (cmd_Example c))).
Proof.
  simpl. split; [done |]. intros ->. unfold chosen.
  by destruct (nonEmpty (annotation _ "man-examples-section")).
Qed.

Lemma chosen_nonEmpty (annot default : string) :
  nonEmpty default || nonEmpty annot = nonEmpty (chosen annot default).
Proof.
  unfold chosen. destruct (nonEmpty annot) eqn:Ha; [| by rewrite orb_false_r].
  by rewrite orb_true_r.
Qed.

Lemma chosen_text (annot default : string) :
  (if nonEmpty annot then simpleToTroff annot else simpleToTroff default)
  = simpleToTroff (chosen annot default).
Proof. unfold chosen. by destruct (nonEmpty annot). Qed.

(** C2, amended. The author and the see-also booleans tell whether
    their text is not empty. The environment, files, bugs and examples
    booleans tell whether the text the section is made from (the
    annotation, else the default) is not empty; the environment and
    files texts are the sanitized form of that text, and empty when
    the boolean is false. HasFlags tells whether the flag set that is
    shown has a flag, HasInheritedFlags is the option that asks for a
    section of their own; a text that is not empty has its boolean
    true. With a sanitizer that maps no text but the empty one to the
    empty text, the environment and files booleans tell whether their
    text is not empty. *)
Theorem C2_presence_booleans
    (cmd : Node) (opts : GenerateManOptions) (now : Z) :
  let c := node_self cmd in
  let v := manValues cmd opts now in
  let env := chosen (annotation c "man-environment-section") (Environment opts) in
  let files := chosen (annotation c "man-files-section") (Files opts) in
  let bugs := chosen (annotation c "man-bugs-section") (Bugs opts) in
  let examples := chosen (annotation c "man-examples-section") (cmd_Example c) in
  let shown :=
    if GenSeprateInheritedFlags opts then cmd_NonInheritedFlags c
    else cmd_Flags c in
  ms_HasAuthor v = nonEmpty (ms_Author v)
  /\ ms_HasSeeAlso v = nonEmpty (ms_SeeAlsos v)
  /\ ms_HasEnvironment v = nonEmpty env
  /\ ms_Environment v
     = (if ms_HasEnvironment v then simpleToTroff env else EmptyString)
  /\ ms_HasFiles v = nonEmpty files
  /\ ms_Files v = (if ms_HasFiles v then simpleToTroff files else EmptyString)
  /\ ms_HasBugs v = nonEmpty bugs
  /\ ms_HasExamples v = nonEmpty examples
  /\ ms_HasFlags v = HasFlags shown
  /\ (nonEmpty (ms_Flags v) = true -> ms_HasFlags v = true)
  /\ ms_HasInheritedFlags v = GenSeprateInheritedFlags opts
  /\ (nonEmpty (ms_InheritedFlags v) = true -> ms_HasInheritedFlags v = true)
  /\ ((forall s : string,
         nonEmpty s = true -> nonEmpty (simpleToTroff s) = true) ->
      ms_HasEnvironment v = nonEmpty (ms_Environment v)
      /\ ms_HasFiles v = nonEmpty (ms_Files v)).
Proof.
  simpl. rewrite !chosen_nonEmpty, !chosen_text. split_and!; try done.
  - destruct (nonEmpty (Author opts)) eqn:Ha; [| done].
    symmetry. by apply nonEmpty_append_l.
  - destruct (generateSeeAlso_entries cmd
                (if nonEmpty (Section_ opts) then Section_ opts else "1"))
      as (entries & -> & Hentries).
    simpl. symmetry. by apply Join_nonEmpty.
  - by destruct (HasFlags _).
  - by destruct (GenSeprateInheritedFlags opts).
  - intros Hsanitized. split.
    + destruct (nonEmpty (chosen _ (Environment opts))) eqn:He; [| done].
      symmetry. by apply Hsanitized.
    + destruct (nonEmpty (chosen _ (Files opts))) eqn:Hf; [| done].
      symmetry. by apply Hsanitized.
Qed.

(** C1 at a failing input. The command [zap] has an annotation for its
    bugs section and an example; the options have a bugs text for all
    pages. The bugs section is announced and its text is the
    sanitized example, not the annotation; the examples section is
    announced and its text is empty. *)
Theorem C1_examples_overwrite_bugs :
  let v := manValues (mkNode Example.zap []) Example.optsBugs 0 in
  ms_HasBugs v = true
  /\ ms_Bugs v = simpleToTroff "zap publish"
  /\ ms_HasExamples v = true
  /\ ms_Examples v = EmptyString.
Proof. by vm_compute. Qed.

End PageModel.

(** C2 as stated fails on [shy], whose only flag is hidden: the options
    section is announced and its text is empty. *)
Lemma C2_hidden_flag_counterexample :
  let v := manValues (ext := standIn) (mkNode Example.shy []) Example.opts 0 in
  ms_HasFlags v = true /\ ms_Flags v = EmptyString.
Proof. by vm_compute. Qed.

(** ** The built-in template *)

Lemma parse_defaultManTemplate :
  Template.parse defaultManTemplate = Some defaultTokens.
Proof. by vm_compute. Qed.

Lemma field_setName (n name : string) (v : manStruct) :
  String.eqb "Name" n = false ->
  Template.field n (setName v name) = Template.field n v.
Proof.
  intros Hn. unfold Template.field, Template.fields.
  cbn [List.find]. by rewrite Hn.
Qed.

Lemma execute_setName (toks : list Template.Tok) (skip : nat)
    (v : manStruct) (name : string) :
  forallb (fun tok => negb (mentions "Name" tok)) toks = true ->
  Template.execute toks skip (setName v name) = Template.execute toks skip v.
Proof.
  revert skip. induction toks as [|tok toks IH]; intros skip Htoks; [done |].
  simpl in Htoks. apply andb_prop in Htoks as [Htok Htoks].
  destruct tok as [text|n|n|]; simpl.
  - by rewrite IH.
  - rewrite field_setName, IH; [done.. |].
    simpl in Htok. rewrite String.eqb_sym. by destruct (String.eqb n "Name").
  - rewrite field_setName.
    + destruct skip; [| by rewrite IH].
      destruct (default false _); by rewrite IH.
    + simpl in Htok. rewrite String.eqb_sym. by destruct (String.eqb n "Name").
  - by rewrite IH.
Qed.

Lemma execute_text (text : string) (rest : list Template.Tok) (v : manStruct) :
  Template.execute (Template.TText text :: rest) 0 v
  = text +:+ Template.execute rest 0 v.
Proof. reflexivity. Qed.

Lemma execute_flat_app (pre rest : list Template.Tok) (v : manStruct) :
  forallb flat pre = true ->
  Template.execute (pre ++ rest) 0 v
  = Template.execute pre 0 v +:+ Template.execute rest 0 v.
Proof.
  induction pre as [|tok pre IH]; intros Hflat; [done |].
  simpl in Hflat. apply andb_prop in Hflat as [Htok Hflat].
  destruct tok; try done; simpl; by rewrite IH, append_assoc.
Qed.

Section BuiltInTemplate.

Context {ext : Externals}.

Lemma parseTemplate_default :
  parseTemplate defaultManTemplate
  = inr (fun values => (Template.execute defaultTokens 0 values, None)).
Proof. unfold parseTemplate. by rewrite parse_defaultManTemplate. Qed.

(** [generateManPage] writes what [renderedPage] gives. *)
Lemma generateManPage_rendered (cmd : Node) (f : nat) (st : State) :
  generateManPage cmd f st
  = match renderedPage cmd (st_opts st) (time_Now (st_world st)) with
    | inl err => (st, Failure err)
    | inr page =>
        (err ← Execute (fun _ => page) f
                 (manValues cmd (st_opts st) (time_Now (st_world st)));
         match err with
         | Some err => fail err
         | None => mret tt
         end) st
    end.
Proof.
  unfold generateManPage, renderedPage, mbind, M_bind, getOpts, getWorld.
  simpl. by destruct (parseTemplate _).
Qed.

(** C10. Without a template override, the text rendered for a command
    has the NAME section that the built-in template spells out,
    [zap\-publish \- Publish into MQTT], whatever the command; the
    Name field of the values is the dashed path, [\-] and the escaped
    short text, and the rendering does not depend on it. *)
Theorem C10_fixed_name_section
    (cmd : Node) (opts : GenerateManOptions) (now : Z) :
  exists render : manStruct -> string * option error,
    parseTemplate defaultManTemplate = inr render
    /\ (nonEmpty (UseTemplate opts) = false ->
        renderedPage cmd opts now = inr (render (manValues cmd opts now)))
    /\ (forall v : manStruct,
          exists pre post : string,
            render v = (pre +:+ fixedNameSection +:+ post, None))
    /\ ms_Name (manValues cmd opts now)
       = Replace (CommandPath cmd) space "-" +:+ " \- " +:+
         backslashify (cmd_Short (node_self cmd)) +:+ nl
    /\ (forall (v : manStruct) (name : string),
          render (setName v name) = render v).
Proof.
  eexists. split; [apply parseTemplate_default |]. split_and!.
  - intros Hno. unfold renderedPage. by rewrite Hno, parseTemplate_default.
  - intros v.
    pose (before := dq +:+ " " +:+ nl +:+ ".nh" +:+ nl +:+ ".ad l" +:+ nl).
    pose (after := ".SH SYNOPSIS" +:+ nl +:+ ".PP" +:+ nl +:+ ".B ").
    exists (Template.execute (take 10 defaultTokens) 0 v +:+ before),
           (after +:+ Template.execute (drop 11 defaultTokens) 0 v).
    f_equal.
    rewrite <- (take_drop 10 defaultTokens) at 1.
    rewrite execute_flat_app by (by vm_compute).
    change (drop 10 defaultTokens)
      with (Template.TText (before +:+ fixedNameSection +:+ after)
            :: drop 11 defaultTokens).
    rewrite execute_text.
    generalize (Template.execute (take 10 defaultTokens) 0 v).
    generalize (Template.execute (drop 11 defaultTokens) 0 v).
    generalize before after fixedNameSection. clear.
    intros. by rewrite !append_assoc.
  - reflexivity.
  - intros v name. rewrite execute_setName; [done | by vm_compute].
Qed.

End BuiltInTemplate.

(** ** Runs of the generator *)

Lemma bind_run {A B : Type} (m : M A) (k : A -> M B) (st : State) :
  (m ≫= k) st
  = match m st with
    | (st', Return a) => k a st'
    | (st', Failure err) => (st', Failure err)
    | (st', OutOfFuel) => (st', OutOfFuel)
    end.
Proof. reflexivity. Qed.

Lemma pathOf_withCommands (c : Command) (arr ancestors : list Command) :
  pathOf (withCommands c arr) ancestors = pathOf c ancestors.
Proof. by destruct ancestors. Qed.

Lemma nonEmpty_pathOf_child (c p : Command) (rest : list Command) :
  nonEmpty (pathOf c (p :: rest)) = true.
Proof. simpl. by apply nonEmpty_append_r. Qed.

Lemma sameNode_refl (cmd : Node) (arr : list Command) :
  sameNode cmd (mkNode (withCommands (node_self cmd) arr) (node_ancestors cmd)).
Proof. by exists arr. Qed.

Lemma below_child (cmd : Node) (arr : list Command) (c : Command) (n : Node) :
  documented c = true ->
  sameNode (child cmd arr c) n \/ below (child cmd arr c) n ->
  below cmd n.
Proof.
  intros Hdoc [[arr' ->] | (path & arr' & Hpath & Hdocs & Hchain)].
  - exists [withCommands c arr'], arr. split_and!; [done | | done].
    by repeat constructor.
  - exists (path ++ [withCommands c arr']), arr. split_and!.
    + by destruct path.
    + apply Forall_app. split; [done |]. by repeat constructor.
    + rewrite Hchain. simpl. by rewrite <- app_assoc.
Qed.

(** *** The height of a tree *)

Lemma height_children (c : Command) :
  Forall (fun k => height k <= Nat.pred (height c)) (cmd_commands c).
Proof.
  destruct c as [? ? ? ? ? ? ? ? ? ? cs]. simpl.
  induction cs as [|k cs IH]; simpl; constructor.
  - lia.
  - eapply Forall_impl; [exact IH |]. simpl. intros; lia.
Qed.

Lemma height_withCommands (c : Command) (arr : list Command) (bound : nat) :
  Forall (fun k => height k <= bound) arr ->
  height (withCommands c arr) <= S bound.
Proof.
  intros Harr. simpl. apply le_n_S.
  induction Harr as [|k arr Hk Harr IH]; simpl; lia.
Qed.

Lemma height_positive (c : Command) : 1 <= height c.
Proof. destruct c. simpl. lia. Qed.

Lemma Forall_sort_byName (P : Command -> Prop) (l : list Command) :
  Forall P l -> Forall P (sort_byName l).
Proof. intros Hl. by rewrite sort_byName_Permutation. Qed.

Section Walker.

Context {ext : Externals}.

Lemma Create_run (cmd : Node) (filename : string) (st : State) :
  Create cmd filename st
  = match os_Create (st_world st) filename with
    | Some err => (st, Failure err)
    | None =>
        (mkState (st_opts st)
           (st_world st ++ [mkPage cmd filename EmptyString]),
         Return (List.length (st_world st)))
    end.
Proof.
  unfold Create. rewrite bind_run. simpl.
  by destruct (os_Create (st_world st) filename).
Qed.

Lemma pageResult_ends (opts : GenerateManOptions) (world : World) (n : Node)
    (file : string) :
  (pageResult opts world n file).2 <> OutOfFuel.
Proof.
  unfold pageResult.
  destruct (renderedPage _ _ _) as [err | [text renderErr]]; [done |].
  simpl. destruct (file_Write _ _ text).2; [done |]. by destruct renderErr.
Qed.

(** [generateManPage] on the file just created touches that file only,
    and comes to what [pageResult] tells. *)
Lemma generateManPage_last (n : Node) (file : string) (world : World)
    (opts : GenerateManOptions) :
  generateManPage n (List.length world)
    (mkState opts (world ++ [mkPage n file EmptyString]))
  = (mkState opts
       (world ++ [mkPage n file (pageResult opts world n file).1]),
     (pageResult opts world n file).2).
Proof.
  rewrite generateManPage_rendered. unfold pageResult. simpl.
  destruct (renderedPage _ _ _) as [err | [text renderErr]]; [done |].
  unfold Execute. rewrite !bind_run. simpl.
  rewrite list_lookup_middle by done. simpl.
  destruct (file_Write _ _ text) as [written writeErr]. simpl.
  rewrite alter_app_r_alt, Nat.sub_diag by done. simpl.
  destruct writeErr as [err|]; [done |].
  by destruct renderErr as [err|].
Qed.

Lemma Pages_mono (opts : GenerateManOptions) (reach1 reach2 : Node -> Prop)
    (world : World) (pages : list Page) (r : Outcome unit) :
  (forall n : Node, reach1 n -> reach2 n) ->
  Pages opts reach1 world pages r -> Pages opts reach2 world pages r.
Proof.
  intros Hreach. induction 1 as [| | world n err Hn Hcreate |].
  - constructor.
  - by eapply Pages_page.
  - apply (Pages_no_file _ _ _ n); auto.
  - by apply Pages_bad_page.
Qed.

Lemma Pages_app (opts : GenerateManOptions) (reach : Node -> Prop)
    (world : World) (pages1 pages2 : list Page) (r : Outcome unit) :
  Pages opts reach world pages1 (Return tt) ->
  Pages opts reach (world ++ pages1) pages2 r ->
  Pages opts reach world (pages1 ++ pages2) r.
Proof.
  intros H1. remember (Return tt) as r1 eqn:Hr1. revert pages2 r.
  induction H1 as [world | world p pages r1 Hp H1 IH | |];
    intros pages2 r H2; try discriminate.
  - by rewrite app_nil_r in H2.
  - simpl. eapply Pages_page; [done |]. apply IH; [done |].
    by rewrite <- app_assoc.
Qed.

(** The last steps of a run on a node. *)
Lemma ownPage_run (cmd : Node) (commands : list Command) (st : State) :
  let res := ownPage cmd commands st in
  res.2 <> OutOfFuel
  /\ st_opts res.1 = st_opts st
  /\ (forall c' : Command,
        res.2 = Return c'
        -> c' = withCommands (node_self cmd) (sort_byName commands))
  /\ exists own : list Page,
       st_world res.1 = st_world st ++ own
       /\ Forall (fun p => page_node p = cmd) own
       /\ List.length own <= 1
       /\ (forall c' : Command, res.2 = Return c' -> List.length own = 1)
       /\ Pages (st_opts st) (fun n => n = cmd) (st_world st) own
            (ending res.2).
Proof.
  destruct st as [opts world]. unfold ownPage.
  rewrite bind_run. simpl. rewrite bind_run, Create_run. simpl.
  destruct (os_Create world (pageFile opts cmd)) as [err|] eqn:Hcreate; simpl.
  - split_and!; try done. exists []. rewrite app_nil_r.
    split_and!; try done; simpl; try lia.
    by apply (Pages_no_file _ _ _ cmd).
  - pose proof (generateManPage_last cmd (pageFile opts cmd) world opts)
      as Hgen.
    pose proof (pageResult_ends opts world cmd (pageFile opts cmd)) as Hr.
    destruct (pageResult opts world cmd (pageFile opts cmd)) as [body r]
      eqn:Hresult.
    simpl in Hgen, Hr. rewrite bind_run, Hgen.
    assert (Hemitted : emitted opts world
                         (mkPage cmd (pageFile opts cmd) body) r)
      by (by split_and!).
    destruct r as [[]|err|]; [| | done]; simpl.
    + split_and!; try done; [congruence |].
      eexists [_]. split_and!; try done; simpl; try lia.
      * by repeat constructor.
      * eapply Pages_page; [done | constructor].
    + split_and!; try done.
      eexists [_]. split_and!; try done; simpl; try lia.
      * by repeat constructor.
      * by apply Pages_bad_page.
Qed.

Lemma GenerateManPages_fuel_S (fuel : nat) (cmd : Node) (st : State) :
  GenerateManPages_fuel (S fuel) cmd st
  = match
      rangeCommands (GenerateManPages_fuel fuel) cmd
        (List.length (cmd_commands (node_self cmd))) 0
        (cmd_commands (node_self cmd))
        (mkState
           (if nonEmpty (ProgramName (st_opts st)) then st_opts st
            else setProgramName (st_opts st) (CommandPath cmd))
           (st_world st))
    with
    | (st2, Return commands) =>
        ownPage
          (mkNode (withCommands (node_self cmd) commands) (node_ancestors cmd))
          commands st2
    | (st2, Failure err) => (st2, Failure err)
    | (st2, OutOfFuel) => (st2, OutOfFuel)
    end.
Proof.
  destruct st as [opts world].
  change (GenerateManPages_fuel (S fuel) cmd) with
    (opts ← getOpts;
     (if nonEmpty (ProgramName opts) then mret tt
      else setOpts (setProgramName opts (CommandPath cmd)));;
     commands ←
       rangeCommands (GenerateManPages_fuel fuel) cmd
         (List.length (cmd_commands (node_self cmd))) 0
         (cmd_commands (node_self cmd));
     ownPage
       (mkNode (withCommands (node_self cmd) commands) (node_ancestors cmd))
       commands).
  rewrite bind_run. simpl. rewrite bind_run.
  destruct (nonEmpty (ProgramName opts)); simpl; by rewrite bind_run.
Qed.

Lemma setProgramName_same (opts : GenerateManOptions) :
  setProgramName opts (ProgramName opts) = opts.
Proof. by destruct opts. Qed.

Lemma ranged_mret (cmd : Node) (bound : nat) (arr : list Command) (st : State) :
  Forall (fun k => height k <= bound) arr ->
  ranged cmd bound st ((mret arr : M (list Command)) st).
Proof.
  intros Harr. split; simpl; try done.
  - by rewrite setProgramName_same.
  - by intros arr' [= <-].
  - exists []. rewrite app_nil_r. split_and!; try done. constructor.
Qed.

Lemma documented_of_test (c : Command) :
  negb (cmd_IsAvailableCommand c) || cmd_IsAdditionalHelpTopicCommand c = false ->
  documented c = true.
Proof. unfold documented. by intros ->. Qed.

(** The loop, given what the recursive calls come to. *)
Lemma rangeCommands_ranged (fuel bound : nat) (cmd : Node) :
  (forall (n : Node) (st : State),
     height (node_self n) <= fuel ->
     walked n st (GenerateManPages_fuel fuel n st)) ->
  bound <= fuel ->
  forall (todo i : nat) (arr : list Command) (st : State),
    Forall (fun k => height k <= bound) arr ->
    ranged cmd bound st
      (rangeCommands (GenerateManPages_fuel fuel) cmd todo i arr st).
Proof.
  intros IH Hbound.
  induction todo as [|todo IHtodo]; intros i arr st Harr; simpl.
  { by apply ranged_mret. }
  destruct (arr !! i) as [c|] eqn:Hc; [| by apply ranged_mret].
  destruct (negb _ || _) eqn:Htest; [by apply IHtodo |].
  apply documented_of_test in Htest.
  assert (Hheight : height c <= fuel).
  { eapply Forall_lookup_1 in Harr; [| exact Hc]. simpl in Harr. lia. }
  rewrite bind_run.
  pose proof (IH (child cmd arr c) st Hheight) as Hw.
  destruct (GenerateManPages_fuel fuel (child cmd arr c) st)
    as [st1 [c'|err|]] eqn:Hrun.
  - destruct Hw as [_ Hkeep Hframe Hnamed _ Hret
                      (under & own & Hworld & Hunder & Hown & _ & _ & Hpages)].
    simpl in *.
    specialize (Hnamed (nonEmpty_pathOf_child _ _ _)).
    assert (Harr' : Forall (fun k => height k <= bound)
                      (sort_byName (<[i := c']> arr))).
    { apply Forall_sort_byName, Forall_insert; [done |].
      eapply Forall_lookup_1 in Harr; [| exact Hc]. simpl in Harr.
      specialize (Hret c' eq_refl). lia. }
    destruct (IHtodo (S i) _ st1 Harr')
      as [Htotal2 Hkeep2 Hframe2 Hret2 (pages & Hworld2 & Hbelow2 & Hpages2)].
    specialize (Hkeep2 Hnamed).
    split; try done.
    + intros Hne. rewrite Hkeep2. by apply Hkeep.
    + rewrite Hkeep2. exact Hframe.
    + exists ((under ++ own) ++ pages). split_and!.
      * by rewrite Hworld2, Hworld, !app_assoc.
      * rewrite !Forall_app. split_and!; [| | done].
        -- eapply Forall_impl; [exact Hunder |]. intros p Hp.
           apply (below_child cmd arr c); [done | by right].
        -- eapply Forall_impl; [exact Hown |]. intros p Hp.
           apply (below_child cmd arr c); [done | by left].
      * apply Pages_app.
        -- rewrite Hkeep2.
           eapply Pages_mono; [| exact Hpages].
           intros n Hn. by apply (below_child cmd arr c).
        -- by rewrite <- Hworld.
  - destruct Hw as [_ Hkeep Hframe _ _ _
                      (under & own & Hworld & Hunder & Hown & _ & _ & Hpages)].
    simpl in *. split; try done.
    exists (under ++ own). split_and!; [done | |].
    2: { eapply Pages_mono; [| exact Hpages].
         intros n Hn. by apply (below_child cmd arr c). }
    rewrite Forall_app. split.
    + eapply Forall_impl; [exact Hunder |]. intros p Hp.
      apply (below_child cmd arr c); [done | by right].
    + eapply Forall_impl; [exact Hown |]. intros p Hp.
      apply (below_child cmd arr c); [done | by left].
  - by destruct Hw as [[] _ _ _ _ _ _].
Qed.

(** A run with fuel for every level of the tree. *)
Lemma GenerateManPages_fuel_walked (fuel : nat) :
  forall (cmd : Node) (st : State),
    height (node_self cmd) <= fuel ->
    walked cmd st (GenerateManPages_fuel fuel cmd st).
Proof.
  induction fuel as [|fuel IH]; intros cmd st Hfuel.
  { pose proof (height_positive (node_self cmd)). lia. }
  rewrite GenerateManPages_fuel_S.
  pose proof (height_positive (node_self cmd)) as Hpos.
  set (opts1 := if nonEmpty (ProgramName (st_opts st)) then st_opts st
                else setProgramName (st_opts st) (CommandPath cmd)).
  assert (Hopts1 : opts1 = setProgramName (st_opts st) (ProgramName opts1)).
  { subst opts1. destruct (nonEmpty _); [| done].
    by rewrite setProgramName_same. }
  assert (Hnamed1 : nonEmpty (CommandPath cmd) = true ->
                    nonEmpty (ProgramName opts1) = true).
  { subst opts1. by destruct (nonEmpty (ProgramName _)) eqn:Hn. }
  assert (Hbound : Nat.pred (height (node_self cmd)) <= fuel) by lia.
  destruct (rangeCommands_ranged fuel _ cmd IH Hbound
              (List.length (cmd_commands (node_self cmd))) 0
              (cmd_commands (node_self cmd))
              (mkState opts1 (st_world st)) (height_children _))
    as [Htotal Hkeep Hframe Hret (pages & Hworld & Hbelow & Hpages)].
  destruct (rangeCommands _ _ _ _ _ _) as [st2 [commands|err|]];
    simpl in *; [| | done].
  - specialize (Hret commands eq_refl).
    destruct (ownPage_run
                (mkNode (withCommands (node_self cmd) commands)
                   (node_ancestors cmd)) commands st2)
      as (Htotal3 & Hopts3 & Hret3 & own & Hworld3 & Hown & Hlen & Hone
          & Hpages3).
    destruct (ownPage _ _ _) as [st3 r3]. simpl in *.
    split; simpl; try done.
    + intros Hne. rewrite Hopts3, Hkeep; subst opts1; by rewrite Hne.
    + rewrite Hopts3. rewrite Hframe at 1. by rewrite Hopts1.
    + intros Hpath. rewrite Hopts3, Hkeep; auto.
    + intros Hempty Hpath. rewrite Hopts3, Hkeep; [| auto].
      subst opts1. by rewrite Hempty.
    + intros c' ->. rewrite (Hret3 c' eq_refl).
      etrans; [apply height_withCommands, Forall_sort_byName, Hret |]. lia.
    + exists pages, own. split_and!; try done.
      * by rewrite Hworld3, Hworld, app_assoc.
      * eapply Forall_impl; [exact Hown |]. intros p ->.
        apply sameNode_refl.
      * rewrite Hopts3. apply Pages_app.
        -- eapply Pages_mono; [| exact Hpages]. intros n Hn. by right.
        -- rewrite <- Hworld.
           eapply Pages_mono; [| exact Hpages3].
           intros n ->. left. apply sameNode_refl.
  - split; simpl; try done.
    + intros Hne. rewrite Hkeep; subst opts1; by rewrite Hne.
    + rewrite Hframe at 1. by rewrite Hopts1.
    + intros Hpath. rewrite Hkeep; auto.
    + intros Hempty Hpath. rewrite Hkeep; [| auto].
      subst opts1. by rewrite Hempty.
    + exists pages, []. rewrite !app_nil_r. split_and!; try done.
      * simpl. lia.
      * eapply Pages_mono; [| exact Hpages]. intros n Hn. by right.
Qed.

(** A run of [GenerateManPages]. *)
Lemma GenerateManPages_walked (cmd : Node) (st : State) :
  walked cmd st (GenerateManPages cmd st).
Proof. by apply GenerateManPages_fuel_walked. Qed.

(** *** The fuel does not matter *)

Lemma rangeCommands_ext (visit1 visit2 : Node -> M Command) (cmd : Node)
    (bound : nat) :
  (forall (arr : list Command) (c : Command) (st : State),
     height c <= bound ->
     visit1 (child cmd arr c) st = visit2 (child cmd arr c) st) ->
  (forall (arr : list Command) (c c' : Command) (st : State),
     height c <= bound ->
     (visit2 (child cmd arr c) st).2 = Return c' ->
     height c' <= bound) ->
  forall (todo i : nat) (arr : list Command) (st : State),
    Forall (fun k => height k <= bound) arr ->
    rangeCommands visit1 cmd todo i arr st
    = rangeCommands visit2 cmd todo i arr st.
Proof.
  intros Hsame Hheight.
  induction todo as [|todo IH]; intros i arr st Harr; simpl; [done |].
  destruct (arr !! i) as [c|] eqn:Hc; [| done].
  destruct (negb _ || _); [by apply IH |].
  assert (Hbound : height c <= bound)
    by (by eapply Forall_lookup_1 in Harr).
  rewrite !bind_run, Hsame by done.
  pose proof (fun c' => Hheight arr c c' st Hbound) as Hret.
  destruct (visit2 (child cmd arr c) st) as [st1 [c'|err|]]; [| done..].
  apply IH, Forall_sort_byName, Forall_insert; [done |].
  by apply Hret.
Qed.

Lemma GenerateManPages_fuel_irrelevant (fuel1 fuel2 : nat) :
  forall (cmd : Node) (st : State),
    height (node_self cmd) <= fuel1 ->
    height (node_self cmd) <= fuel2 ->
    GenerateManPages_fuel fuel1 cmd st = GenerateManPages_fuel fuel2 cmd st.
Proof.
  revert fuel2. induction fuel1 as [|fuel1 IH]; intros fuel2 cmd st H1 H2.
  { pose proof (height_positive (node_self cmd)). lia. }
  destruct fuel2 as [|fuel2].
  { pose proof (height_positive (node_self cmd)). lia. }
  rewrite !GenerateManPages_fuel_S.
  rewrite (rangeCommands_ext (GenerateManPages_fuel fuel1)
             (GenerateManPages_fuel fuel2) cmd
             (Nat.pred (height (node_self cmd)))); [done | | |].
  - intros arr c st' Hc. apply IH; simpl; lia.
  - intros arr c c' st' Hc Hret.
    destruct (GenerateManPages_fuel_walked fuel2 (child cmd arr c) st')
      as [_ _ _ _ _ Hheight _]; [simpl; lia |].
    specialize (Hheight c' Hret). simpl in Hheight. lia.
  - apply height_children.
Qed.

(** [GenerateManPages] is the recursive function of the source: it
    sets the program name when that is empty, calls itself on the
    documented children while it ranges over the slice, and makes the
    page of the command. *)
Lemma GenerateManPages_unfold (cmd : Node) (st : State) :
  GenerateManPages cmd st
  = (opts ← getOpts;
     (if nonEmpty (ProgramName opts) then mret tt
      else setOpts (setProgramName opts (CommandPath cmd)));;
     commands ←
       rangeCommands GenerateManPages cmd
         (List.length (cmd_commands (node_self cmd))) 0
         (cmd_commands (node_self cmd));
     ownPage
       (mkNode (withCommands (node_self cmd) commands) (node_ancestors cmd))
       commands) st.
Proof.
  unfold GenerateManPages at 1.
  pose proof (height_positive (node_self cmd)) as Hpos.
  destruct (height (node_self cmd)) as [|fuel] eqn:Hheight; [lia |].
  rewrite GenerateManPages_fuel_S.
  rewrite (rangeCommands_ext (GenerateManPages_fuel fuel) GenerateManPages
             cmd fuel).
  - destruct st as [opts world]. rewrite bind_run. simpl. rewrite bind_run.
    destruct (nonEmpty (ProgramName opts)); simpl; by rewrite bind_run.
  - intros arr c st' Hc. unfold GenerateManPages.
    apply GenerateManPages_fuel_irrelevant; simpl; lia.
  - intros arr c c' st' Hc Hret.
    destruct (GenerateManPages_walked (child cmd arr c) st')
      as [_ _ _ _ _ Hh _].
    specialize (Hh c' Hret). simpl in Hh. lia.
  - pose proof (height_children (node_self cmd)) as Hchildren.
    by rewrite Hheight in Hchildren.
Qed.

Lemma Pages_files (opts : GenerateManOptions) (reach : Node -> Prop)
    (world : World) (pages : list Page) (r : Outcome unit) :
  Pages opts reach world pages r ->
  Forall (fun p => page_file p = pageFile opts (page_node p)) pages.
Proof.
  induction 1 as [| world p pages r Hp _ IH | | world p err Hp].
  - constructor.
  - constructor; [apply Hp | done].
  - constructor.
  - repeat constructor. apply Hp.
Qed.

(** What the description [Pages] of a run says, page by page: a page
    that ends with an error is the last one, and its error is the
    error of the run; an error of the run is the error of the last
    page or of creating the file of one more node. *)
Lemma Pages_steps (opts : GenerateManOptions) (reach : Node -> Prop)
    (world : World) (pages : list Page) (r : Outcome unit) :
  Pages opts reach world pages r ->
  (forall (earlier : list Page) (p : Page) (rest : list Page),
     pages = earlier ++ p :: rest ->
     exists rp : Outcome unit,
       emitted opts (world ++ earlier) p rp
       /\ (rest <> [] \/ r = Return tt -> rp = Return tt)
       /\ (forall err : error, rp = Failure err -> rest = [] /\ r = Failure err))
  /\ (forall err : error,
        r = Failure err ->
        (exists n : Node,
           reach n /\ os_Create (world ++ pages) (pageFile opts n) = Some err)
        \/ (exists (earlier : list Page) (last : Page),
              pages = earlier ++ [last]
              /\ emitted opts (world ++ earlier) last (Failure err))).
Proof.
  induction 1 as [world | world p pages r Hp H IH | world n err Hreach Hn
                 | world p err Hp].
  - split; [| done]. intros earlier p rest Heq. by destruct earlier.
  - destruct IH as [IHsteps IHlast]. split.
    + intros earlier q rest Heq. destruct earlier as [|d earlier];
        simplify_eq/=.
      * exists (Return tt). rewrite app_nil_r. by split_and!.
      * destruct (IHsteps earlier q rest eq_refl) as (rp & Hq & Hrest & Herr).
        exists rp. by rewrite <- app_assoc in Hq.
    + intros err ->. destruct (IHlast err eq_refl)
        as [(n & Hreach & Hn) | (earlier & last & -> & Hlast)].
      * left. exists n. by rewrite <- app_assoc in Hn.
      * right. exists (p :: earlier), last. split; [done |].
        by rewrite <- app_assoc in Hlast.
  - split.
    + intros earlier p rest Heq. by destruct earlier.
    + intros err' [= <-]. left. exists n. by rewrite app_nil_r.
  - split.
    + intros earlier q rest Heq.
      destruct earlier as [|d earlier]; simplify_eq/=; [| by destruct earlier].
      exists (Failure err). rewrite app_nil_r. split_and!; [done | |].
      * by intros [? | ?].
      * by intros err' [= <-].
    + intros err' [= <-]. right. exists [], p. split; [done |].
      by rewrite app_nil_r.
Qed.



Lemma Join_snoc (l : list string) (x sep : string) :
  l <> [] -> Join (l ++ [x]) sep = Join l sep +:+ sep +:+ x.
Proof.
  unfold Join. induction l as [|y l IH]; [done |]. intros _.
  destruct l as [|z l]; [done |].
  change (String.concat sep ((y :: z :: l) ++ [x]))
    with (y +:+ sep +:+ String.concat sep ((z :: l) ++ [x])).
  rewrite IH by done.
  change (String.concat sep (y :: z :: l))
    with (y +:+ sep +:+ String.concat sep (z :: l)).
  by rewrite !append_assoc.
Qed.

(** The path of a node is the names of its chain with spaces between
    them. *)
Lemma CommandPath_Join (n : Node) : CommandPath n = Join (chainNames n) " ".
Proof.
  destruct n as [self ancestors]. unfold CommandPath, chainNames. simpl.
  revert self. induction ancestors as [|p rest IH]; intros self; [done |].
  change (pathOf self (p :: rest))
    with (pathOf p rest +:+ " " +:+ cmd_Name self).
  change (namesOf self (p :: rest)) with (namesOf p rest ++ [cmd_Name self]).
  rewrite IH, Join_snoc; [done |].
  destruct rest as [|q rest]; [done |]. simpl. by destruct (namesOf q rest).
Qed.

(** C7. Every file that a run creates is the file of a node visited by
    the run, the node of the call or a node under it, and its path is
    the output directory joined with the base name: the full path of
    the command, which is the names of its chain with spaces between
    them (the display name for the command at the top), with every
    space replaced by the separator ([-] when the option is empty),
    then a dot and the section ([1] when the option is empty). A run
    that returns has created the file of that name for the node of the
    call, as its last file. A run that fails has failed to create a
    file of that name for a node it visits, or has failed on the last
    file it created. *)
Theorem C7_page_file_name (cmd : Node) (st : State) :
  let res := GenerateManPages cmd st in
  let separator :=
    if nonEmpty (CommandSeparator (st_opts st)) then CommandSeparator (st_opts st)
    else "-" in
  let section :=
    if nonEmpty (Section_ (st_opts st)) then Section_ (st_opts st) else "1" in
  let fileOf := fun n : Node =>
    filepath_Join (Directory (st_opts st))
      (Replace (CommandPath n) space separator +:+ "." +:+ section) in
  res.2 <> OutOfFuel
  /\ exists pages : list Page,
       st_world res.1 = st_world st ++ pages
       /\ Forall
            (fun p =>
               (sameNode cmd (page_node p) \/ below cmd (page_node p))
               /\ CommandPath (page_node p) = Join (chainNames (page_node p)) " "
               /\ page_file p
                  = filepath_Join (Directory (st_opts st))
                      (Replace (CommandPath (page_node p)) space separator
                       +:+ "." +:+ section))
            pages
       /\ (forall c' : Command,
             res.2 = Return c' ->
             exists (earlier : list Page) (p : Page),
               pages = earlier ++ [p]
               /\ sameNode cmd (page_node p)
               /\ page_file p = fileOf cmd)
       /\ (forall err : error,
             res.2 = Failure err ->
             (exists n : Node,
                (sameNode cmd n \/ below cmd n)
                /\ os_Create (st_world res.1) (fileOf n) = Some err)
             \/ (exists (earlier : list Page) (p : Page),
                   pages = earlier ++ [p]
                   /\ page_file p = fileOf (page_node p)
                   /\ (pageResult (st_opts res.1) (st_world st ++ earlier)
                         (page_node p) (page_file p)).2
                      = Failure err)).
Proof.
  destruct (GenerateManPages_walked cmd st)
    as [Htotal _ Hframe _ _ _
          (under & own & Hworld & Hunder & Hown & Hlen & Hone & Hpages)].
  assert (Hfile : forall n : Node,
            pageFile (st_opts (GenerateManPages cmd st).1) n
            = filepath_Join (Directory (st_opts st))
                (Replace (CommandPath n) space
                   (if nonEmpty (CommandSeparator (st_opts st))
                    then CommandSeparator (st_opts st) else "-")
                 +:+ "." +:+
                 (if nonEmpty (Section_ (st_opts st)) then Section_ (st_opts st)
                  else "1")))
    by (intros n; by rewrite Hframe).
  pose proof (Pages_files _ _ _ _ _ Hpages) as Hfiles.
  simpl. split; [done |]. exists (under ++ own). split_and!.
  - done.
  - apply Forall_forall. intros p Hp. split_and!.
    + apply elem_of_app in Hp as [Hp | Hp].
      * right. by eapply Forall_forall in Hunder.
      * left. by eapply Forall_forall in Hown.
    + apply CommandPath_Join.
    + eapply Forall_forall in Hfiles; [| exact Hp]. by rewrite Hfiles, Hfile.
  - intros c' Hret. specialize (Hone c' Hret).
    destruct own as [|p [|q own]]; simpl in Hone; [lia | | lia].
    exists under, p. apply Forall_inv in Hown. split_and!; [done | done |].
    apply Forall_app in Hfiles as [_ Hp]. apply Forall_inv in Hp.
    rewrite Hp, Hfile. destruct Hown as [arr ->].
    unfold CommandPath. simpl. by rewrite pathOf_withCommands.
  - intros err Herr. apply Pages_steps in Hpages as [_ Hlast].
    rewrite Herr in Hlast.
    destruct (Hlast err eq_refl)
      as [(n & Hreach & Hn) | (earlier & last & Heq & Hemitted)].
    + left. exists n. split; [exact Hreach |].
      by rewrite Hworld, <- Hfile.
    + right. exists earlier, last. destruct Hemitted as (Hname & _ & Hresult).
      split_and!; [done | by rewrite Hname, Hfile |].
      by rewrite <- Hresult.
Qed.

(** C5, amended. In a run that returns, the file of the node is the
    last file created, and the files created before it are files of
    nodes under the node: a page is written after the pages of the
    descendants, not before. A run that fails has created files under
    the node and at most, as the last one, the file of the node. *)
Theorem C5_pages_post_order (cmd : Node) (st : State) :
  let res := GenerateManPages cmd st in
  res.2 <> OutOfFuel
  /\ exists under own : list Page,
       st_world res.1 = st_world st ++ under ++ own
       /\ Forall (fun p => below cmd (page_node p)) under
       /\ Forall (fun p => sameNode cmd (page_node p)) own
       /\ List.length own <= 1
       /\ (forall c' : Command, res.2 = Return c' -> List.length own = 1).
Proof.
  destruct (GenerateManPages_walked cmd st)
    as [Htotal _ _ _ _ _
          (under & own & Hworld & Hunder & Hown & Hlen & Hone & _)].
  simpl. split; [done |]. by exists under, own.
Qed.

(** C6, amended. Every file that a run creates belongs to a node whose
    chain leads up to the node of the call through documented commands
    only: below the node of the call, no file is created for a command
    that is not available or is a help topic, nor for a node under such
    a command. The node of the call itself is not tested. *)
Theorem C6_skipped_subtrees (cmd : Node) (st : State) :
  let res := GenerateManPages cmd st in
  res.2 <> OutOfFuel
  /\ exists pages : list Page,
       st_world res.1 = st_world st ++ pages
       /\ Forall
            (fun p =>
               exists (path arr : list Command),
                 chain (page_node p)
                 = path ++ withCommands (node_self cmd) arr :: node_ancestors cmd
                 /\ Forall (fun c => documented c = true) path)
            pages.
Proof.
  destruct (GenerateManPages_walked cmd st)
    as [Htotal _ _ _ _ _
          (under & own & Hworld & Hunder & Hown & _ & _ & _)].
  simpl. split; [done |]. exists (under ++ own). split; [done |].
  apply Forall_app. split.
  - eapply Forall_impl; [exact Hunder |].
    intros p (path & arr & _ & Hdocs & Hchain). by exists path, arr.
  - eapply Forall_impl; [exact Hown |].
    intros p [arr ->]. by exists [], arr.
Qed.

(** C8, amended. A run leaves every field of the options but the
    program name as it was; it leaves the program name as it was when
    that was not empty; an empty program name becomes the path of the
    node of the call, when that path is not empty. *)
Theorem C8_options_frame (cmd : Node) (st : State) :
  let res := GenerateManPages cmd st in
  st_opts res.1 = setProgramName (st_opts st) (ProgramName (st_opts res.1))
  /\ (nonEmpty (ProgramName (st_opts st)) = true ->
      st_opts res.1 = st_opts st)
  /\ (nonEmpty (ProgramName (st_opts st)) = false ->
      nonEmpty (CommandPath cmd) = true ->
      ProgramName (st_opts res.1) = CommandPath cmd).
Proof.
  by destruct (GenerateManPages_walked cmd st) as [_ Hkeep Hframe _ Hfirst _ _].
Qed.


End Walker.

(** C5 as stated fails on the tree [app], [app sub]: the file of the
    child is created first and the file of the parent after it. *)
Lemma C5_child_first_counterexample :
  page_file <$>
    st_world (GenerateManPages (ext := standIn) (mkNode Example.app [])
                (mkState Example.opts [])).1
  = ["out/app-sub.1"; "out/app.1"].
Proof. by vm_compute. Qed.

(** C6 as stated fails on the tree [ghost], whose top command is not
    available: the run on it creates the file of its child and its own
    file. *)
Lemma C6_root_counterexample :
  documented Example.ghost = false
  /\ page_file <$>
       st_world (GenerateManPages (ext := standIn) (mkNode Example.ghost [])
                   (mkState Example.opts [])).1
     = ["out/ghost-sub.1"; "out/ghost.1"].
Proof. by vm_compute. Qed.

(** C8 as stated fails on options without a program name: after the
    run the program name is the path of the top command. *)
Lemma C8_program_name_counterexample :
  ProgramName Example.opts = EmptyString
  /\ ProgramName
       (st_opts (GenerateManPages (ext := standIn) (mkNode Example.app [])
                   (mkState Example.opts [])).1)
     = "app".
Proof. by vm_compute. Qed.

(** ** The properties at work on the examples *)

(** With flags to show, the options section is announced; with the
    option for a section of inherited flags, that section is announced;
    with an environment text for all pages, and the stand-in sanitizer,
    the environment section is announced and its text is not empty. *)
Lemma C2_presence_booleans_witness :
  ms_HasFlags
    (manValues (ext := standIn) (mkNode Example.app []) Example.opts 0) = true
  /\ ms_HasInheritedFlags
       (manValues (ext := standIn) (mkNode Example.app []) Example.optsSplit 0)
     = true
  /\ ms_HasEnvironment
       (manValues (ext := standIn) (mkNode Example.app []) Example.optsEnv 0)
     = nonEmpty
         (ms_Environment
            (manValues (ext := standIn) (mkNode Example.app [])
               Example.optsEnv 0)).
Proof.
  split; [| split].
  - destruct (C2_presence_booleans (ext := standIn)
                (mkNode Example.app []) Example.opts 0)
      as (_ & _ & _ & _ & _ & _ & _ & _ & _ & Hflags & _).
    apply Hflags. reflexivity.
  - destruct (C2_presence_booleans (ext := standIn)
                (mkNode Example.app []) Example.optsSplit 0)
      as (_ & _ & _ & _ & _ & _ & _ & _ & _ & _ & _ & Hinherited & _).
    apply Hinherited. reflexivity.
  - destruct (C2_presence_booleans (ext := standIn)
                (mkNode Example.app []) Example.optsEnv 0)
      as (_ & _ & _ & _ & _ & _ & _ & _ & _ & _ & _ & _ & Hsanitized).
    apply Hsanitized. intros s Hs. exact Hs.
Defined.

(** The run on [app] returns: the file of [app] is the one file of its
    own, after the files under it. *)
Lemma C5_pages_post_order_witness :
  let cmd := mkNode Example.app [] in
  let res := GenerateManPages (ext := standIn) cmd (mkState Example.opts []) in
  exists under own : list Page,
    st_world res.1 = [] ++ under ++ own
    /\ Forall (fun p => below cmd (page_node p)) under
    /\ Forall (fun p => sameNode cmd (page_node p)) own
    /\ List.length own = 1.
Proof.
  destruct (C5_pages_post_order (ext := standIn) (mkNode Example.app [])
              (mkState Example.opts []))
    as (_ & under & own & Hworld & Hunder & Hown & _ & Hone).
  exists under, own. split_and!; [exact Hworld | exact Hunder | exact Hown |].
  eapply Hone. vm_compute. reflexivity.
Defined.

(** A program name that is set stays; an empty one becomes the path of
    the top command. *)
Lemma C8_options_frame_witness :
  st_opts (GenerateManPages (ext := standIn) (mkNode Example.app [])
             (mkState Example.optsBugs [])).1
  = Example.optsBugs
  /\ ProgramName
       (st_opts (GenerateManPages (ext := standIn) (mkNode Example.app [])
                   (mkState Example.opts [])).1)
     = CommandPath (mkNode Example.app []).
Proof.
  split.
  - apply (C8_options_frame (ext := standIn) (mkNode Example.app [])
             (mkState Example.optsBugs [])).
    reflexivity.
  - apply (C8_options_frame (ext := standIn) (mkNode Example.app [])
             (mkState Example.opts []));
      reflexivity.
Defined.


(** A template of the options that does not parse stops the run at its
    first page: the file of [app sub] is created and stays empty, and
    no other file is made. *)
Example template_error_aborts :
  let res := GenerateManPages (ext := standIn) (mkNode Example.app [])
               (mkState Example.optsNope []) in
  res.2 = Failure "template: outside the fragment"
  /\ (fun p => (page_file p, page_body p)) <$> st_world res.1
     = [("out/app-sub.1", EmptyString)].
Proof. by vm_compute. Qed.

(** A write that fails stops the run at its first page too. *)
Example write_error_aborts :
  let res := GenerateManPages (ext := diskFull) (mkNode Example.app [])
               (mkState Example.opts []) in
  res.2 = Failure "disk full"
  /\ (fun p => (page_file p, page_body p)) <$> st_world res.1
     = [("out/app-sub.1", EmptyString)].
Proof. by vm_compute. Qed.

(** Without a template override, the page of [app] is rendered by the
    built-in template. *)
Lemma C10_fixed_name_section_witness :
  exists render : manStruct -> string * option error,
    parseTemplate (ext := standIn) defaultManTemplate = inr render
    /\ renderedPage (ext := standIn) (mkNode Example.app []) Example.opts 0
       = inr (render (manValues (ext := standIn) (mkNode Example.app [])
                        Example.opts 0)).
Proof.
  destruct (C10_fixed_name_section (ext := standIn) (mkNode Example.app [])
              Example.opts 0)
    as (render & Hparse & Hrendered & _).
  exists render. split; [exact Hparse |]. apply Hrendered. reflexivity.
Defined.

(** The page of [app], as the stand-ins write it. *)
Example app_pages :
  page_file <$>
    st_world (GenerateManPages (ext := standIn) (mkNode Example.app [])
                (mkState Example.optsBugs [])).1
  = ["out/app-sub.1"; "out/app.1"]
  /\ ms_SeeAlsos
       (manValues (ext := standIn) (mkNode Example.app []) Example.opts 0)
     = ".BR app\-sub (1)"
  /\ ms_SeeAlsos
       (manValues (ext := standIn) (mkNode Example.sub [Example.app])
          Example.opts 0)
     = ".BR app (1)"
  /\ ms_SynFlags
       (manValues (ext := standIn) (mkNode Example.app []) Example.opts 0)
     = ".RB [ \-v ]" +:+ nl +:+ ".RB [ \-\-config ]" +:+ nl.
Proof. by vm_compute. Qed.

(** The slice that the loop of [GenerateManPages] ranges over is the
    slice that [generateSeeAlso] of a child sorts: on a slice that is
    not in the order of the names, the loop goes on in the sorted slice.
    Here the page of [sub] is generated twice and the page of [abc] not
    at all. A slice that cobra hands out sorted is not affected. *)
Example unsorted_slice :
  page_file <$>
    st_world (GenerateManPages (ext := standIn) (mkNode Example.unsorted [])
                (mkState Example.opts [])).1
  = ["out/tool-sub.1"; "out/tool-sub.1"; "out/tool-zz.1"; "out/tool.1"].
Proof. by vm_compute. Qed.

(** * Further properties *)

(** ** Strings and formats *)

Lemma inCutset_app (c : ascii) (a b : string) :
  inCutset c (a +:+ b) = inCutset c a || inCutset c b.
Proof.
  induction a as [|x a IH]; [done |].
  rewrite append_cons. simpl. by rewrite IH, orb_assoc.
Qed.

Lemma noPercent_app (a b : string) :
  noPercent (a +:+ b) = noPercent a && noPercent b.
Proof. unfold noPercent. by rewrite inCutset_app, negb_orb. Qed.

Lemma sprintf_s_byte (c : ascii) (rest : string) (args : list string) :
  Ascii.eqb c percent = false ->
  sprintf_s (String c rest) args = String c <$> sprintf_s rest args.
Proof. intros Hc. cbn [sprintf_s]. by rewrite Hc. Qed.

(** A stretch of the format without [%] is copied. *)
Lemma sprintf_s_plain (pre rest : string) (args : list string) :
  noPercent pre = true ->
  sprintf_s (pre +:+ rest) args = String.append pre <$> sprintf_s rest args.
Proof.
  unfold noPercent. induction pre as [|c pre IH]; intros Hpre.
  - change (EmptyString +:+ rest) with rest.
    by destruct (sprintf_s rest args).
  - cbn [inCutset] in Hpre.
    apply negb_true_iff, orb_false_elim in Hpre as [Hc Hpre].
    rewrite Ascii.eqb_sym in Hc.
    rewrite append_cons, sprintf_s_byte, IH by (done || by rewrite Hpre).
    by destruct (sprintf_s rest args).
Qed.

(** The verb [%s] takes the next operand. *)
Lemma sprintf_s_verb (rest a : string) (args : list string) :
  sprintf_s ("%s" +:+ rest) (a :: args) = String.append a <$> sprintf_s rest args.
Proof. reflexivity. Qed.

Lemma sprintf_s_end (post : string) :
  noPercent post = true -> sprintf_s post [] = Some post.
Proof.
  intros Hpost. rewrite <- (append_nil_r post) at 1.
  rewrite sprintf_s_plain by done. simpl. by rewrite append_nil_r.
Qed.

Lemma TrimRight_app_kept (a b cutset : string) :
  nonEmpty (TrimRight b cutset) = true ->
  TrimRight (a +:+ b) cutset = a +:+ TrimRight b cutset.
Proof.
  intros Hb. induction a as [|c a IH]; [done |].
  rewrite !append_cons. cbn [TrimRight]. rewrite IH.
  pose proof (nonEmpty_append_r a _ Hb) as Hkept.
  by destruct (a +:+ TrimRight b cutset).
Qed.

Lemma TrimRight_idem (s cutset : string) :
  TrimRight (TrimRight s cutset) cutset = TrimRight s cutset.
Proof.
  induction s as [|c s IH]; [done |]. cbn [TrimRight].
  destruct (TrimRight s cutset) as [|d kept] eqn:Hs.
  - destruct (inCutset c cutset) eqn:Hc; [done |].
    cbn [TrimRight]. by rewrite Hc.
  - change (TrimRight (String c (String d kept)) cutset)
      with (match TrimRight (String d kept) cutset with
            | EmptyString =>
                if inCutset c cutset then EmptyString else String c EmptyString
            | kept' => String c kept'
            end).
    by rewrite IH.
Qed.

Lemma trimmed_app (a b : string) : trimmed a -> trimmed b -> trimmed (a +:+ b).
Proof.
  unfold trimmed. intros Ha Hb. destruct b as [|c b].
  - by rewrite append_nil_r.
  - rewrite TrimRight_app_kept; by rewrite Hb.
Qed.

(** ** Flag formatter, in full *)

Section FlagRenderings.

Context {ext : Externals}.

(** X1. The synopsis rendering of a flag set is the buffer it started
    from, followed by one token for every flag that is neither hidden
    nor deprecated, in the order of the set and with nothing between
    the tokens: the shorthand of the flag when it has one that is not
    deprecated, its escaped long name otherwise. *)
Theorem synopsis_tokens (buf : string) (flags : list Flag) :
  printSynFlags buf flags
  = buf +:+ Join (synToken <$> filter (fun flag => listed flag) flags)
              EmptyString.
Proof.
  revert buf. induction flags as [|flag flags IH]; intros buf.
  - simpl. by rewrite append_nil_r.
  - rewrite printSynFlags_cons, IH.
    destruct (listed flag) eqn:Hlisted.
    + rewrite filter_cons_True by (by rewrite Hlisted).
      rewrite fmap_cons, Join_glue, printSynFlag_token, append_assoc by done.
      done.
    + rewrite filter_cons_False by (rewrite Hlisted; simpl; tauto).
      rewrite printSynFlag_unlisted; [done |].
      unfold listed in Hlisted. by apply negb_false_iff in Hlisted.
Qed.

Lemma flagFormat_names (flag : Flag) :
  flagFormat flag
  = (".TP" +:+ nl +:+ flagNames flag +:+
     (if nonEmpty (flag_NoOptDefVal flag) then "[" else EmptyString) +:+
     "=\fI") +:+ "%s" +:+
    ("\fR" +:+
     (if nonEmpty (flag_NoOptDefVal flag) then "]" else EmptyString) +:+ nl) +:+
    "%s" +:+ nl.
Proof.
  unfold flagFormat, flagNames.
  assert (Hshort :
            Sprintf "\fB\-%s\fP, \fB\-\-%s\fP"
              [flag_Shorthand flag; backslashify (flag_Name flag)]
            = "\fB\-" +:+ flag_Shorthand flag +:+ "\fP, \fB\-\-" +:+
              backslashify (flag_Name flag) +:+ "\fP") by reflexivity.
  rewrite Hshort, Sprintf_long_form. clear Hshort.
  destruct (nonEmpty (flag_Shorthand flag)
            && negb (nonEmpty (flag_ShorthandDeprecated flag)));
    destruct (nonEmpty (flag_NoOptDefVal flag));
    rewrite ?append_assoc, ?append_nil_r; reflexivity.
Qed.

Lemma printFlag_block (buf : string) (flag : Flag) :
  listed flag = true ->
  noPercent (flagNames flag) = true ->
  printFlag buf flag = buf +:+ TrimRight (flagBlock flag) (" " +:+ nl).
Proof.
  unfold listed, unlisted, printFlag.
  intros Hlisted Hnames. apply negb_true_iff in Hlisted. rewrite Hlisted.
  f_equal. f_equal. unfold Sprintf.
  rewrite flagFormat_names.
  rewrite sprintf_s_plain, sprintf_s_verb, sprintf_s_plain, sprintf_s_verb,
    sprintf_s_end.
  - unfold flagBlock. simpl.
    destruct (nonEmpty (flag_NoOptDefVal flag));
      rewrite ?append_assoc, ?append_nil_r; reflexivity.
  - reflexivity.
  - by destruct (nonEmpty (flag_NoOptDefVal flag)).
  - rewrite !noPercent_app, Hnames.
    by destruct (nonEmpty (flag_NoOptDefVal flag)).
Qed.

(** X2. When the names of the listed flags hold no [%] (the shorthand
    that is shown and the escaped long name: they become part of the
    format of the block), the full rendering of a flag set is the
    buffer it started from, followed by the block of every listed
    flag, in the order of the set. A block is the names, the escaped
    default value and the escaped usage, cut after its last byte that
    is neither a space nor a line end; nothing is put between two
    blocks, so a block starts on the last line of the block before. *)
Theorem options_blocks (buf : string) (flags : list Flag) :
  Forall (fun flag => listed flag = true -> noPercent (flagNames flag) = true)
    flags ->
  printFlags buf flags
  = buf +:+
    Join ((fun flag => TrimRight (flagBlock flag) (" " +:+ nl))
            <$> filter (fun flag => listed flag) flags)
      EmptyString.
Proof.
  intros Hflags. revert buf.
  induction Hflags as [|flag flags Hflag Hflags IH]; intros buf.
  - simpl. by rewrite append_nil_r.
  - rewrite printFlags_cons, IH.
    destruct (listed flag) eqn:Hlisted.
    + rewrite filter_cons_True by (by rewrite Hlisted).
      rewrite fmap_cons, Join_glue, printFlag_block, append_assoc by auto.
      done.
    + rewrite filter_cons_False by (rewrite Hlisted; simpl; tauto).
      rewrite printFlag_unlisted; [done |].
      unfold listed in Hlisted. by apply negb_false_iff in Hlisted.
Qed.

(** X3. The full rendering never ends with a space or a line end of
    its own: from a buffer that does not end with one, the rendering of
    any flag set does not end with one either. *)
Theorem options_end_trimmed (buf : string) (flags : FlagSet) :
  trimmed buf -> trimmed (printFlags buf flags).
Proof.
  revert buf. induction flags as [|flag flags IH]; intros buf Hbuf; [done |].
  rewrite printFlags_cons. apply IH.
  unfold printFlag. destruct (nonEmpty (flag_Deprecated flag) || flag_Hidden flag);
    [done |].
  apply trimmed_app; [done |]. apply TrimRight_idem.
Qed.

End FlagRenderings.

Lemma options_blocks_witness :
  Forall (fun flag =>
            listed flag = true ->
            noPercent (flagNames (ext := standIn) flag) = true)
    [Example.verbose; Example.secret; Example.legacy]
  /\ printFlags (ext := standIn) EmptyString
       [Example.verbose; Example.secret; Example.legacy]
     = EmptyString +:+
       Join ((fun flag =>
                TrimRight (flagBlock (ext := standIn) flag) (" " +:+ nl))
               <$> filter (fun flag => listed flag)
                     [Example.verbose; Example.secret; Example.legacy])
         EmptyString.
Proof.
  assert (Hflags :
            Forall (fun flag =>
                      listed flag = true ->
                      noPercent (flagNames (ext := standIn) flag) = true)
              [Example.verbose; Example.secret; Example.legacy])
    by (repeat constructor).
  split; [exact Hflags |].
  exact (options_blocks (ext := standIn) EmptyString _ Hflags).
Defined.

Lemma options_end_trimmed_witness :
  trimmed EmptyString
  /\ trimmed (printFlags (ext := standIn) EmptyString
                [Example.verbose; Example.config]).
Proof.
  split; [reflexivity |].
  apply (options_end_trimmed (ext := standIn) EmptyString). reflexivity.
Defined.

(** The blocks of two flags, as they come out: the second block starts
    on the line of the usage of the first. *)
Example glued_blocks :
  printFlags (ext := standIn) EmptyString [Example.verbose; Example.config]
  = ".TP" +:+ nl +:+ "\fB\-v\fP, \fB\-\-verbose\fP[=\fIfalse\fR]" +:+ nl +:+
    "be loud.TP" +:+ nl +:+ "\fB\-\-config\fP=\fI\fR" +:+ nl +:+ "config file".
Proof. reflexivity. Qed.

(** ** Cross references and the order of the slices *)

Lemma sorted_names_unique (P : Command -> Prop) `{!forall x, Decision (P x)}
    (l1 l2 : list Command) :
  l1 ≡ₚ l2 ->
  cmd_Name <$> filter P (sort_byName l1) = cmd_Name <$> filter P (sort_byName l2).
Proof.
  intros Hperm. apply (StronglySorted_unique String.le).
  - apply (StronglySorted_fmap _ byName); [done |].
    apply StronglySorted_filter, sort_byName_sorted.
  - apply (StronglySorted_fmap _ byName); [done |].
    apply StronglySorted_filter, sort_byName_sorted.
  - by rewrite !sort_byName_Permutation, Hperm.
Qed.

Lemma notNil_Permutation {A : Type} (l1 l2 : list A) :
  l1 ≡ₚ l2 -> notNil l1 = notNil l2.
Proof.
  intros Hperm. destruct l1, l2; try done.
  - by apply Permutation_nil_cons in Hperm.
  - symmetry in Hperm. by apply Permutation_nil_cons in Hperm.
Qed.

Section SeeAlsoOrder.

Context {ext : Externals}.

Lemma entries_by_name (path section : string) (l1 l2 : list Command) :
  cmd_Name <$> l1 = cmd_Name <$> l2 ->
  entry path section <$> l1 = entry path section <$> l2.
Proof.
  intros Hnames.
  change (entry path section)
    with ((fun name => ".BR " +:+ Replace path space "\-" +:+ "\-" +:+ name +:+
                       " (" +:+ section +:+ ")") ∘ cmd_Name).
  by rewrite !list_fmap_compose, Hnames.
Qed.

Lemma notNil_by_name (l1 l2 : list Command) :
  cmd_Name <$> l1 = cmd_Name <$> l2 -> notNil l1 = notNil l2.
Proof. intros Hnames. by rewrite <- !(notNil_fmap cmd_Name), Hnames. Qed.

(** X4. The cross references of a node do not depend on the order in
    which its slice and the slice of its parent hold their commands:
    with the same commands in any other order, [generateSeeAlso] gives
    the same boolean and the same text. *)
Theorem see_also_any_order (cmd : Node) (section : string)
    (cs ps : list Command) :
  cs ≡ₚ cmd_commands (node_self cmd) ->
  ps ≡ₚ parentCommands cmd ->
  generateSeeAlso (reslice cmd cs ps) section = generateSeeAlso cmd section.
Proof.
  intros Hcs Hps. rewrite !generateSeeAlso_eq.
  destruct cmd as [self [|parent rest]]; unfold reslice; simpl.
  - unfold parentEntry, parentCommands, parentPath, HasParent, Parent,
      CommandPath, Name. simpl.
    pose proof (sorted_names_unique (fun c => documented c) _ _ Hcs) as Hnames.
    by rewrite (entries_by_name _ _ _ _ Hnames), (notNil_by_name _ _ Hnames).
  - unfold parentEntry, parentCommands, parentPath, HasParent, Parent,
      CommandPath, Name in *. simpl in *.
    rewrite !pathOf_withCommands.
    pose proof (sorted_names_unique (fun c => documented c) _ _ Hcs) as Hnames.
    rewrite (entries_by_name _ _ _ _ Hnames).
    assert (Hsiblings :
              cmd_Name <$> filter (fun c => documented c)
                             (filter (fun c => cmd_Name c <> cmd_Name self)
                                (sort_byName ps))
              = cmd_Name <$> filter (fun c => documented c)
                               (filter (fun c => cmd_Name c <> cmd_Name self)
                                  (sort_byName (cmd_commands parent)))).
    { rewrite !list_filter_filter. by apply sorted_names_unique. }
    by rewrite (entries_by_name _ _ _ _ Hsiblings).
Qed.

(** X5. Whether a page has cross references: always for a node with
    a parent, and for a node without parent when one of its commands
    is documented. *)
Theorem see_also_presence (cmd : Node) (section : string) :
  (generateSeeAlso cmd section).1
  = HasParent cmd || existsb documented (cmd_commands (node_self cmd)).
Proof.
  rewrite generateSeeAlso_eq. simpl. f_equal.
  rewrite (notNil_Permutation _
             (filter (fun c => documented c) (cmd_commands (node_self cmd))))
    by (by rewrite sort_byName_Permutation).
  induction (cmd_commands (node_self cmd)) as [|c cs IH]; [done |].
  simpl. destruct (documented c) eqn:Hdoc.
  - by rewrite filter_cons_True by (by rewrite Hdoc).
  - by rewrite filter_cons_False by (rewrite Hdoc; simpl; tauto).
Qed.

End SeeAlsoOrder.

Lemma see_also_any_order_witness :
  let cmd := mkNode (Example.leaf "sub" "s") [Example.unsorted] in
  let ps := [Example.leaf "abc" "a"; Example.leaf "sub" "s";
             Example.leaf "zz" "z"] in
  [] ≡ₚ cmd_commands (node_self cmd)
  /\ ps ≡ₚ parentCommands cmd
  /\ generateSeeAlso (ext := standIn) (reslice cmd [] ps) "1"
     = generateSeeAlso (ext := standIn) cmd "1".
Proof.
  simpl.
  assert (Hcs : @nil Command ≡ₚ
                cmd_commands
                  (node_self (mkNode (Example.leaf "sub" "s") [Example.unsorted])))
    by constructor.
  assert (Hps : [Example.leaf "abc" "a"; Example.leaf "sub" "s";
                 Example.leaf "zz" "z"]
                ≡ₚ parentCommands
                     (mkNode (Example.leaf "sub" "s") [Example.unsorted]))
    by apply perm_swap.
  split; [exact Hcs |]. split; [exact Hps |].
  exact (see_also_any_order (ext := standIn) _ "1" _ _ Hcs Hps).
Defined.

(** ** Page model, further fields *)

Section PageFields.

Context {ext : Externals}.

(** X6. The examples field of the values is always empty, and the
    bugs field holds the text of the examples whenever there is one:
    the sanitized examples text (the annotation, else the example of
    the command) when that is not empty, whatever the bugs text; the
    sanitized bugs text (the annotation, else the option) when there
    is a bugs text and no examples text; and nothing otherwise. *)
Theorem bugs_field_holds_examples
    (cmd : Node) (opts : GenerateManOptions) (now : Z) :
  let c := node_self cmd in
  let v := manValues cmd opts now in
  let bugs := chosen (annotation c "man-bugs-section") (Bugs opts) in
  let examples := chosen (annotation c "man-examples-section") (cmd_Example c) in
  ms_Examples v = EmptyString
  /\ ms_Bugs v
     = (if nonEmpty examples then simpleToTroff examples
        else if nonEmpty bugs then simpleToTroff bugs
        else EmptyString).
Proof.
  simpl. split; [done |].
  rewrite !chosen_text, <- !chosen_nonEmpty.
  by rewrite (orb_comm (nonEmpty (cmd_Example _))).
Qed.

(** X7. The texts of the flags in the values. The synopsis is made
    from all the flags of the command. The options text is made from
    the flag set that is shown: the flags of the command, or its
    non-inherited flags when the option asks for a section of
    inherited flags. In that case the text of the inherited section is
    made from the non-inherited flags too, so that it repeats the
    options text. *)
Theorem flag_texts (cmd : Node) (opts : GenerateManOptions) (now : Z) :
  let c := node_self cmd in
  let v := manValues cmd opts now in
  ms_SynFlags v = printSynFlags EmptyString (cmd_Flags c)
  /\ ms_Flags v
     = printFlags EmptyString
         (if GenSeprateInheritedFlags opts then cmd_NonInheritedFlags c
          else cmd_Flags c)
  /\ ms_InheritedFlags v
     = (if GenSeprateInheritedFlags opts
        then printFlags EmptyString (cmd_NonInheritedFlags c)
        else EmptyString)
  /\ (GenSeprateInheritedFlags opts = true ->
      ms_InheritedFlags v = ms_Flags v).
Proof.
  simpl. split_and!.
  - by destruct (cmd_Flags (node_self cmd)).
  - by destruct (if GenSeprateInheritedFlags opts then _ else _).
  - by destruct (GenSeprateInheritedFlags opts).
  - intros ->. by destruct (cmd_NonInheritedFlags (node_self cmd)).
Qed.

End PageFields.

(** ** The layout of the built-in template *)

Lemma execute_defaultTokens (v : manStruct) :
  Template.execute defaultTokens 0 v = builtInPage v.
Proof.
  destruct v as [? ? ? ? ? ? ? ? ? ? hasFlags ? hasInherited ? hasSeeAlso ?
                   hasAuthor ? hasEnvironment ? hasFiles ? hasBugs ?
                   hasExamples ?].
  destruct hasFlags, hasInherited, hasSeeAlso, hasAuthor, hasEnvironment,
    hasFiles, hasBugs, hasExamples; reflexivity.
Qed.

Section Rendering.

Context {ext : Externals}.

(** X8. Without a template override, rendering a page does not fail,
    and the text is the layout of the built-in template: the title
    line, the fixed NAME section, the synopsis with the path and the
    synopsis of the flags, the description, then each of the sections
    OPTIONS, inherited options, Environment, FILES, BUGS, EXAMPLES,
    AUTHOR and SEE ALSO when its boolean is set, and the closing
    comment. The use line and the Name field are not printed. *)
Theorem built_in_layout (cmd : Node) (opts : GenerateManOptions) (now : Z) :
  nonEmpty (UseTemplate opts) = false ->
  renderedPage cmd opts now
  = inr (builtInPage (manValues cmd opts now), None).
Proof.
  intros Hno. unfold renderedPage.
  by rewrite Hno, parseTemplate_default, execute_defaultTokens.
Qed.

(** X9. The clock shows in the center footer only, and only when
    the options give neither a center footer nor a date: with one of
    them, the values handed to the template, and so the page that is
    rendered, are the same at any time. *)
Theorem page_ignores_clock
    (cmd : Node) (opts : GenerateManOptions) (now1 now2 : Z) :
  nonEmpty (CenterFooter opts) = true \/ is_Some (Date opts) ->
  manValues cmd opts now1 = manValues cmd opts now2
  /\ renderedPage cmd opts now1 = renderedPage cmd opts now2.
Proof.
  intros Hfixed.
  assert (Hvalues : manValues cmd opts now1 = manValues cmd opts now2).
  { unfold manValues. by destruct Hfixed as [-> | [d ->]]. }
  split; [done |]. unfold renderedPage. by rewrite Hvalues.
Qed.

End Rendering.

Lemma built_in_layout_witness :
  nonEmpty (UseTemplate Example.optsBugs) = false
  /\ renderedPage (ext := standIn) (mkNode Example.zap []) Example.optsBugs 0
     = inr (builtInPage
              (manValues (ext := standIn) (mkNode Example.zap [])
                 Example.optsBugs 0),
            None).
Proof.
  split; [reflexivity |].
  apply (built_in_layout (ext := standIn)). reflexivity.
Defined.

Lemma page_ignores_clock_witness :
  let opts :=
    mkOptions "zap" EmptyString EmptyString (Some 1700000000%Z) EmptyString
      EmptyString EmptyString EmptyString EmptyString EmptyString "out"
      EmptyString false EmptyString in
  (nonEmpty (CenterFooter opts) = true \/ is_Some (Date opts))
  /\ (manValues (ext := standIn) (mkNode Example.zap []) opts 0
      = manValues (ext := standIn) (mkNode Example.zap []) opts 86400
      /\ renderedPage (ext := standIn) (mkNode Example.zap []) opts 0
         = renderedPage (ext := standIn) (mkNode Example.zap []) opts 86400).
Proof.
  simpl.
  assert (Hdate :
            nonEmpty EmptyString = true
            \/ is_Some (Some 1700000000%Z)) by (right; by eexists).
  split; [exact Hdate |].
  exact (page_ignores_clock (ext := standIn) (mkNode Example.zap [])
           (mkOptions "zap" EmptyString EmptyString (Some 1700000000%Z)
              EmptyString EmptyString EmptyString EmptyString EmptyString
              EmptyString "out" EmptyString false EmptyString)
           0 86400 Hdate).
Defined.

(** The page of [zap]: the example text under BUGS, and an EXAMPLES
    section without text. *)
Example zap_page :
  builtInPage
    (manValues (ext := standIn) (mkNode Example.zap []) Example.optsBugs 0)
  = ".TH " +:+ dq +:+ "zap" +:+ dq +:+ " " +:+ dq +:+ "1" +:+ dq +:+ " " +:+
    dq +:+ "Jan 2006" +:+ dq +:+ " " +:+ dq +:+ dq +:+ " " +:+ dq +:+ dq +:+
    " " +:+ nl +:+
    ".nh" +:+ nl +:+ ".ad l" +:+ nl +:+
    ".SH NAME" +:+ nl +:+ ".PP" +:+ nl +:+
    "zap\-publish \- Publish into MQTT" +:+ nl +:+
    ".SH SYNOPSIS" +:+ nl +:+ ".PP" +:+ nl +:+ ".B zap" +:+ nl +:+ nl +:+
    ".SH DESCRIPTION" +:+ nl +:+ ".PP" +:+ nl +:+ "short" +:+ nl +:+
    ".SH BUGS" +:+ nl +:+ ".PP" +:+ nl +:+ "zap publish" +:+ nl +:+
    ".SH EXAMPLES" +:+ nl +:+ ".PP" +:+ nl +:+ nl +:+
    "." +:+ dq +:+ " This file auto-generated by github.com/rjohnson/cobra-man" +:+
    nl.
Proof. by vm_compute. Qed.

(** ** Runs that do not fail *)

Section Returns.

Context {ext : Externals}.

Hypothesis creates : forall (world : World) (file : string),
  os_Create world file = None.
Hypothesis writes : forall (world : World) (file text : string),
  (file_Write world file text).2 = None.

Lemma pageResult_returns (opts : GenerateManOptions) (world : World)
    (n : Node) (file : string) :
  nonEmpty (UseTemplate opts) = false ->
  (pageResult opts world n file).2 = Return tt.
Proof.
  intros Hno. unfold pageResult, renderedPage.
  rewrite Hno, parseTemplate_default. simpl. by rewrite writes.
Qed.

(** X10. A run fails for an outside reason only: when creating a file
    never fails, writing never fails and the options name no template
    of their own, [GenerateManPages] returns, whatever the tree. *)
Theorem run_returns (cmd : Node) (st : State) :
  nonEmpty (UseTemplate (st_opts st)) = false ->
  exists c' : Command, (GenerateManPages cmd st).2 = Return c'.
Proof.
  intros Hno.
  destruct (GenerateManPages_walked cmd st)
    as [Htotal _ Hframe _ _ _
          (under & own & Hworld & _ & _ & _ & _ & Hpages)].
  destruct (GenerateManPages cmd st) as [st' [c'|err|]] eqn:Hrun;
    simpl in *; [by exists c' | | done].
  exfalso. apply Pages_steps in Hpages as [_ Hlast].
  destruct (Hlast err eq_refl)
    as [(n & _ & Hn) | (earlier & last & _ & Hemitted)].
  - by rewrite creates in Hn.
  - destruct Hemitted as (_ & _ & Hresult).
    apply (f_equal snd) in Hresult. simpl in Hresult.
    rewrite pageResult_returns in Hresult; [done |].
    rewrite Hframe. by destruct (st_opts st).
Qed.

End Returns.

Lemma run_returns_witness :
  (forall (world : World) (file : string),
     os_Create (Externals := standIn) world file = None)
  /\ (forall (world : World) (file text : string),
        (file_Write (Externals := standIn) world file text).2 = None)
  /\ nonEmpty (UseTemplate (st_opts (mkState Example.opts []))) = false
  /\ exists c' : Command,
       (GenerateManPages (ext := standIn) (mkNode Example.app [])
          (mkState Example.opts [])).2 = Return c'.
Proof.
  split; [reflexivity |]. split; [reflexivity |]. split; [reflexivity |].
  apply (run_returns (ext := standIn)); reflexivity.
Defined.

(** ** Trees with sorted slices *)

Lemma withCommands_id (c : Command) : withCommands c (cmd_commands c) = c.
Proof. by destruct c. Qed.

Lemma postorder_eq (c : Command) (ancestors : list Command) :
  postorder c ancestors
  = flat_map
      (fun k => if documented k then postorder k (c :: ancestors) else [])
      (cmd_commands c)
    ++ [mkNode c ancestors].
Proof. by destruct c. Qed.

Section SortedTrees.

Context {ext : Externals}.

(** The loop over a slice in the order of the names, when every visit
    of a child walks the tree of the child and leaves it as it is. *)
Lemma rangeCommands_sorted (visit : Node -> M Command) (cmd : Node)
    (cs : list Command) :
  StronglySorted byName cs ->
  (forall (k : Command) (st : State),
     k ∈ cs -> documented k = true ->
     postWalk k (withCommands (node_self cmd) cs :: node_ancestors cmd) st
       (visit (child cmd cs k) st)) ->
  forall (todo i : nat) (st : State),
    let walk :=
      flat_map
        (fun k =>
           if documented k
           then postorder k (withCommands (node_self cmd) cs :: node_ancestors cmd)
           else [])
        (take todo (drop i cs)) in
    let res := rangeCommands visit cmd todo i cs st in
    exists pages : list Page,
      st_world res.1 = st_world st ++ pages
      /\ page_node <$> pages `prefix_of` walk
      /\ (forall arr : list Command,
            res.2 = Return arr -> arr = cs /\ page_node <$> pages = walk).
Proof.
  intros Hsorted Hvisit todo.
  induction todo as [|todo IH]; intros i st; simpl.
  - exists []. rewrite app_nil_r. split_and!; [done | done |].
    by intros arr [= <-].
  - destruct (cs !! i) as [c|] eqn:Hc.
    + rewrite (drop_S _ _ _ Hc). simpl.
      destruct (negb (cmd_IsAvailableCommand c)
                || cmd_IsAdditionalHelpTopicCommand c) eqn:Hskip.
      * unfold documented. rewrite Hskip. simpl. apply IH.
      * assert (Hdoc : documented c = true)
          by (unfold documented; by rewrite Hskip).
        rewrite Hdoc, bind_run.
        destruct (Hvisit c st (list_elem_of_lookup_2 _ _ _ Hc) Hdoc)
          as (pages1 & Hworld1 & Hprefix1 & Hreturn1).
        destruct (visit (child cmd cs c) st) as [st1 [c'|err|]]; simpl in *.
        -- destruct (Hreturn1 c' eq_refl) as [-> Hnodes1].
           rewrite list_insert_id, sort_byName_sorted_id by done.
           destruct (IH (S i) st1) as (pages2 & Hworld2 & Hprefix2 & Hreturn2).
           exists (pages1 ++ pages2). split_and!.
           ++ by rewrite Hworld2, Hworld1, app_assoc.
           ++ rewrite fmap_app, Hnodes1. by apply prefix_app.
           ++ intros arr Harr. destruct (Hreturn2 arr Harr) as [-> Hnodes2].
              by rewrite fmap_app, Hnodes1, Hnodes2.
        -- exists pages1. split_and!; [done | | done].
           by apply prefix_app_r.
        -- exists pages1. split_and!; [done | | done].
           by apply prefix_app_r.
    + apply lookup_ge_None in Hc. rewrite drop_ge by done.
      exists []. rewrite app_nil_r. split_and!; [done | done |].
      by intros arr [= <-].
Qed.

Lemma GenerateManPages_postWalk (n : nat) :
  forall (cmd : Node) (st : State),
    height (node_self cmd) <= n ->
    sortedTree (node_self cmd) ->
    postWalk (node_self cmd) (node_ancestors cmd) st (GenerateManPages cmd st).
Proof.
  induction n as [|n IH]; intros cmd st Hheight Htree.
  - pose proof (height_positive (node_self cmd)). lia.
  - destruct cmd as [self ancestors]. simpl in *.
    inversion Htree as [c Hsorted Hchildren Hc]; subst c.
    rewrite GenerateManPages_unfold. simpl.
    set (pre := mkState
                  (if nonEmpty (ProgramName (st_opts st)) then st_opts st
                   else setProgramName (st_opts st)
                          (CommandPath (mkNode self ancestors)))
                  (st_world st)).
    assert (Hloop :
              (opts ← getOpts;
               (if nonEmpty (ProgramName opts) then mret tt
                else setOpts (setProgramName opts
                                (CommandPath (mkNode self ancestors))));;
               commands ←
                 rangeCommands GenerateManPages (mkNode self ancestors)
                   (List.length (cmd_commands self)) 0 (cmd_commands self);
               ownPage (mkNode (withCommands self commands) ancestors) commands)
                st
              = (commands ←
                   rangeCommands GenerateManPages (mkNode self ancestors)
                     (List.length (cmd_commands self)) 0 (cmd_commands self);
                 ownPage (mkNode (withCommands self commands) ancestors)
                   commands) pre).
    { destruct st as [opts world]. rewrite bind_run. simpl. rewrite bind_run.
      subst pre. simpl. by destruct (nonEmpty (ProgramName opts)). }
    rewrite Hloop. clear Hloop. rewrite bind_run.
    destruct (rangeCommands_sorted GenerateManPages (mkNode self ancestors)
                (cmd_commands self) Hsorted) with
      (todo := List.length (cmd_commands self)) (i := 0) (st := pre)
      as (pages & Hworld & Hprefix & Hreturn).
    { intros k st' Hk Hdoc. unfold child. simpl. rewrite withCommands_id.
      apply (IH (mkNode k (self :: ancestors)) st').
      - simpl. pose proof (height_children self) as Hkids.
        rewrite Forall_forall in Hkids. specialize (Hkids k Hk). lia.
      - simpl. rewrite Forall_forall in Hchildren. by apply Hchildren. }
    simpl in Hprefix, Hreturn. rewrite withCommands_id in Hprefix, Hreturn.
    rewrite drop_0, firstn_all in Hprefix, Hreturn.
    destruct (rangeCommands _ _ _ _ _ pre) as [st1 [arr|err|]]; simpl in *.
    + destruct (Hreturn arr eq_refl) as [-> Hnodes].
      rewrite withCommands_id.
      destruct (ownPage_run (mkNode self ancestors) (cmd_commands self) st1)
        as (_ & _ & Hvalue & own & Hworld2 & Hown & Hlen & Hone & _).
      exists (pages ++ own). rewrite postorder_eq. split_and!.
      * by rewrite Hworld2, Hworld, app_assoc.
      * rewrite fmap_app, Hnodes. apply prefix_app.
        destruct own as [|p [|q own]]; simpl in *; [apply prefix_nil | | lia].
        apply Forall_inv in Hown. by rewrite Hown.
      * intros c' Hc'. split.
        -- rewrite (Hvalue c' Hc'). simpl.
           rewrite sort_byName_sorted_id by done. apply withCommands_id.
        -- specialize (Hone c' Hc'). rewrite fmap_app, Hnodes. f_equal.
           destruct own as [|p [|q own]]; simpl in *; [lia | | lia].
           apply Forall_inv in Hown. by rewrite Hown.
    + exists pages. rewrite postorder_eq. split_and!; [done | | done].
      by apply prefix_app_r.
    + exists pages. rewrite postorder_eq. split_and!; [done | | done].
      by apply prefix_app_r.
Qed.

(** X11. On a tree whose slices are in the order of the names, a run
    is the walk one expects. The files are made for the documented
    nodes of the tree, every node after the nodes under it and the
    children in the order of their names, each node once; the node of
    the call comes last. A run that returns has made the file of
    every such node and leaves the tree as it was; a run that fails
    has made the files of a first part of them. *)
Theorem sorted_tree_post_order (cmd : Node) (st : State) :
  sortedTree (node_self cmd) ->
  postWalk (node_self cmd) (node_ancestors cmd) st (GenerateManPages cmd st).
Proof. by apply (GenerateManPages_postWalk (height (node_self cmd))). Qed.

End SortedTrees.

Lemma sorted_tree_post_order_witness :
  sortedTree (node_self (mkNode Example.app []))
  /\ postWalk Example.app [] (mkState Example.opts [])
       (GenerateManPages (ext := standIn) (mkNode Example.app [])
          (mkState Example.opts [])).
Proof.
  assert (Htree : sortedTree (node_self (mkNode Example.app []))).
  { constructor; simpl.
    - repeat constructor.
    - repeat constructor. }
  split; [exact Htree |].
  exact (sorted_tree_post_order (ext := standIn) (mkNode Example.app [])
           (mkState Example.opts []) Htree).
Defined.

(** ** File names *)

Lemma Replace_app (a b : string) (old : ascii) (new : string) :
  Replace (a +:+ b) old new = Replace a old new +:+ Replace b old new.
Proof.
  induction a as [|c a IH]; [done |].
  rewrite append_cons. cbn [Replace]. rewrite IH.
  destruct (Ascii.eqb c old); [by rewrite append_assoc | done].
Qed.

Lemma Replace_noSpace (s new : string) :
  noSpace s = true -> Replace s space new = s.
Proof.
  unfold noSpace. induction s as [|c s IH]; [done |]. intros Hs.
  cbn [inCutset] in Hs. apply negb_true_iff, orb_false_elim in Hs as [Hc Hs].
  cbn [Replace]. rewrite Ascii.eqb_sym, Hc, IH; [done |]. by rewrite Hs.
Qed.

(** Replacing the spaces of names joined by spaces joins them by the
    replacement, when the names hold no space themselves. *)
Lemma Replace_Join (names : list string) (sep : string) :
  Forall (fun name => noSpace name = true) names ->
  Replace (Join names " ") space sep = Join names sep.
Proof.
  induction 1 as [|name names Hname Hnames IH]; [done |].
  destruct names as [|name' names]; [by apply Replace_noSpace |].
  change (Join (name :: name' :: names) " ")
    with (name +:+ " " +:+ Join (name' :: names) " ").
  change (Join (name :: name' :: names) sep)
    with (name +:+ sep +:+ Join (name' :: names) sep).
  rewrite !Replace_app, IH, Replace_noSpace by done.
  cbn [Replace]. simpl. by rewrite append_nil_r.
Qed.

Section FileNames.

Context {ext : Externals}.

Lemma namesOf_withCommands (c : Command) (arr ancestors : list Command) :
  namesOf (withCommands c arr) ancestors = namesOf c ancestors.
Proof. by destruct ancestors. Qed.

(** X12. The file of a node whose names, from the top of its chain
    down to the node (the display name of the command at the top, then
    the names of the commands under it), hold no space: its base name
    is these names with the separator between them ([-] when the option
    is empty), then a dot and the section ([1] when the option is
    empty), in the output directory. This holds for every file that a
    run creates, and a run that returns has created that file for the
    node of the call, as its last file. *)
Theorem page_file_joined (cmd : Node) (st : State) :
  let res := GenerateManPages cmd st in
  let separator :=
    if nonEmpty (CommandSeparator (st_opts st)) then CommandSeparator (st_opts st)
    else "-" in
  let section :=
    if nonEmpty (Section_ (st_opts st)) then Section_ (st_opts st) else "1" in
  exists pages : list Page,
    st_world res.1 = st_world st ++ pages
    /\ Forall
         (fun p =>
            Forall (fun name => noSpace name = true) (chainNames (page_node p)) ->
            page_file p
            = filepath_Join (Directory (st_opts st))
                (Join (chainNames (page_node p)) separator +:+ "." +:+ section))
         pages
    /\ (forall c' : Command,
          res.2 = Return c' ->
          Forall (fun name => noSpace name = true) (chainNames cmd) ->
          exists (earlier : list Page) (p : Page),
            pages = earlier ++ [p]
            /\ sameNode cmd (page_node p)
            /\ page_file p
               = filepath_Join (Directory (st_opts st))
                   (Join (chainNames cmd) separator +:+ "." +:+ section)).
Proof.
  destruct (GenerateManPages_walked cmd st)
    as [_ _ Hframe _ _ _ (under & own & Hworld & _ & Hown & _ & Hone & Hpages)].
  simpl. exists (under ++ own). split; [done |].
  apply Pages_files in Hpages. rewrite Hframe in Hpages.
  assert (Hjoined :
            Forall
              (fun p =>
                 Forall (fun name => noSpace name = true)
                   (chainNames (page_node p)) ->
                 page_file p
                 = filepath_Join (Directory (st_opts st))
                     (Join (chainNames (page_node p))
                        (if nonEmpty (CommandSeparator (st_opts st))
                         then CommandSeparator (st_opts st) else "-")
                      +:+ "." +:+
                      (if nonEmpty (Section_ (st_opts st))
                       then Section_ (st_opts st) else "1")))
              (under ++ own)).
  { eapply Forall_impl; [exact Hpages |]. intros p Hfile Hnames.
    rewrite Hfile. unfold pageFile. simpl.
    by rewrite CommandPath_Join, Replace_Join. }
  split; [exact Hjoined |].
  intros c' Hret Hnames. specialize (Hone c' Hret).
  destruct own as [|p [|q own]]; simpl in Hone; [lia | | lia].
  exists under, p. apply Forall_inv in Hown.
  apply Forall_app in Hjoined as [_ Hp]. apply Forall_inv in Hp.
  assert (Hsame : chainNames (page_node p) = chainNames cmd).
  { destruct Hown as [arr ->]. unfold chainNames. simpl.
    apply namesOf_withCommands. }
  rewrite Hsame in Hp. by split_and!; [| | apply Hp].
Qed.

End FileNames.

(** With a display name for the top command, the files and the
    program name are made from it. *)
Example renamed_files :
  let res := GenerateManPages (ext := standIn) (mkNode Example.renamed [])
               (mkState Example.opts []) in
  page_file <$> st_world res.1 = ["out/my-app-sub.1"; "out/my-app.1"]
  /\ ProgramName (st_opts res.1) = "my app".
Proof. by vm_compute. Qed.

(** The files of the tree [app] with the separator [_] and the section
    [8]. *)
Example app_files_joined :
  page_file <$>
    st_world (GenerateManPages (ext := standIn) (mkNode Example.app [])
                (mkState
                   (mkOptions "app" "8" EmptyString None EmptyString
                      EmptyString EmptyString EmptyString EmptyString
                      EmptyString "man" "_" false EmptyString)
                   [])).1
  = ["man/app_sub.8"; "man/app.8"].
Proof. by vm_compute. Qed.

(** ** What a run leaves behind *)

Section Frames.

Context {ext : Externals}.

(** X13. [generateManPage] writes to the file of its handle and
    touches nothing else: it leaves the options, the number of files,
    the node and the name of every file, and every file but that of
    the handle as they were; and it ends, with or without error. *)
Theorem page_writer_frame (cmd : Node) (f : nat) (st : State) :
  let res := generateManPage cmd f st in
  res.2 <> OutOfFuel
  /\ st_opts res.1 = st_opts st
  /\ page_node <$> st_world res.1 = page_node <$> st_world st
  /\ page_file <$> st_world res.1 = page_file <$> st_world st
  /\ (forall i : nat, i <> f -> st_world res.1 !! i = st_world st !! i).
Proof.
  simpl. rewrite generateManPage_rendered.
  destruct (renderedPage _ _ _) as [err | [text renderErr]]; [done |].
  unfold Execute. rewrite !bind_run. simpl.
  destruct (file_Write _ _ text) as [written writeErr]. simpl.
  assert (Hframe :
            forall g : Page -> Page,
              (forall p, page_node (g p) = page_node p) ->
              (forall p, page_file (g p) = page_file p) ->
              page_node <$> alter g f (st_world st) = page_node <$> st_world st
              /\ page_file <$> alter g f (st_world st)
                 = page_file <$> st_world st).
  { intros g Hnode Hfile. split; apply list_eq; intros i;
      rewrite !list_lookup_fmap;
      (destruct (decide (f = i)) as [<- |];
       [rewrite list_lookup_alter_eq; destruct (st_world st !! f); simpl;
        by rewrite ?Hnode, ?Hfile
       | by rewrite list_lookup_alter_ne]). }
  destruct (Hframe (fun p => mkPage (page_node p) (page_file p) written))
    as [Hnodes Hfiles]; [done | done |].
  destruct writeErr as [err|]; [| destruct renderErr as [err|]]; simpl;
    (split_and!; [done | done | done | done |];
     intros i Hi; by rewrite list_lookup_alter_ne).
Qed.

Lemma rangeCommands_bare (visit : Node -> M Command) (cmd : Node) :
  (forall (n : Node) (st : State) (c' : Command),
     (visit n st).2 = Return c' -> bare c' = bare (node_self n)) ->
  forall (todo i : nat) (cs : list Command) (st : State) (arr : list Command),
    (rangeCommands visit cmd todo i cs st).2 = Return arr ->
    bare <$> arr ≡ₚ bare <$> cs.
Proof.
  intros Hvisit todo.
  induction todo as [|todo IH]; intros i cs st arr; simpl.
  - by intros [= <-].
  - destruct (cs !! i) as [c|] eqn:Hc; [| by intros [= <-]].
    destruct (negb (cmd_IsAvailableCommand c)
              || cmd_IsAdditionalHelpTopicCommand c); [apply IH |].
    rewrite bind_run.
    pose proof (Hvisit (child cmd cs c) st) as Hchild.
    destruct (visit (child cmd cs c) st) as [st1 [c'|err|]]; simpl in *;
      [| done | done].
    intros Harr. rewrite (IH _ _ _ _ Harr), sort_byName_Permutation.
    rewrite list_fmap_insert, (Hchild c' eq_refl), list_insert_id; [done |].
    by rewrite list_lookup_fmap, Hc.
Qed.

Lemma GenerateManPages_value (cmd : Node) (st : State) (c' : Command) :
  (GenerateManPages cmd st).2 = Return c' ->
  exists (st1 : State) (commands : list Command),
    (rangeCommands GenerateManPages cmd
       (List.length (cmd_commands (node_self cmd))) 0
       (cmd_commands (node_self cmd)) st1).2
    = Return commands
    /\ c' = withCommands (node_self cmd) (sort_byName commands).
Proof.
  rewrite GenerateManPages_unfold. destruct st as [opts world].
  rewrite bind_run. simpl. rewrite bind_run.
  set (st1 := (if nonEmpty (ProgramName opts) then mret tt
               else setOpts (setProgramName opts (CommandPath cmd)))
                (mkState opts world)).
  assert (Hst1 : exists st', st1 = (st', Return tt))
    by (subst st1; destruct (nonEmpty (ProgramName opts)); by eexists).
  destruct Hst1 as [st' ->]. rewrite bind_run.
  destruct (rangeCommands _ _ _ _ _ st') as [st2 [commands|err|]] eqn:Hloop;
    [| done | done].
  intros Hown. exists st', commands. rewrite Hloop. split; [done |].
  destruct (ownPage_run
              (mkNode (withCommands (node_self cmd) commands)
                 (node_ancestors cmd)) commands st2)
    as (_ & _ & Hvalue & _).
  by rewrite (Hvalue c' Hown).
Qed.

Lemma GenerateManPages_bare (cmd : Node) (st : State) (c' : Command) :
  (GenerateManPages cmd st).2 = Return c' -> bare c' = bare (node_self cmd).
Proof.
  intros Hrun.
  by destruct (GenerateManPages_value cmd st c' Hrun)
    as (st1 & commands & _ & ->).
Qed.

Lemma census_eq (above : list string) (c : Command) :
  census above c
  = (above, bare c)
    :: flat_map (fun k => census (above ++ [cmd_Name c]) k) (cmd_commands c).
Proof. by destruct c. Qed.

Lemma flat_map_insert {A B : Type} (g : A -> list B) (l : list A) (i : nat)
    (x y : A) :
  l !! i = Some x -> g y ≡ₚ g x -> flat_map g (<[i := y]> l) ≡ₚ flat_map g l.
Proof.
  intros Hx Hg.
  rewrite insert_take_drop by (by eapply lookup_lt_Some).
  rewrite <- (take_drop_middle l i x Hx) at 3.
  rewrite !flat_map_app. simpl. by rewrite Hg.
Qed.

Lemma rangeCommands_census (visit : Node -> M Command) (cmd : Node)
    (bound : nat) :
  (forall (arr : list Command) (c : Command) (st : State) (c' : Command),
     height c <= bound ->
     (visit (child cmd arr c) st).2 = Return c' ->
     height c' <= bound
     /\ forall above : list string, census above c' ≡ₚ census above c) ->
  forall (todo i : nat) (cs : list Command) (st : State) (arr : list Command),
    Forall (fun k => height k <= bound) cs ->
    (rangeCommands visit cmd todo i cs st).2 = Return arr ->
    forall above : list string,
      flat_map (census above) arr ≡ₚ flat_map (census above) cs.
Proof.
  intros Hvisit todo.
  induction todo as [|todo IH]; intros i cs st arr Hbound; simpl.
  - by intros [= <-].
  - destruct (cs !! i) as [c|] eqn:Hc; [| by intros [= <-]].
    destruct (negb (cmd_IsAvailableCommand c)
              || cmd_IsAdditionalHelpTopicCommand c); [by apply IH |].
    rewrite bind_run.
    pose proof (Hvisit cs c st) as Hchild.
    destruct (visit (child cmd cs c) st) as [st1 [c'|err|]]; simpl in *;
      [| done | done].
    destruct (Hchild c' (Forall_lookup_1 _ _ _ _ Hbound Hc) eq_refl)
      as [Hheight Hcensus].
    intros Harr above.
    rewrite (IH _ _ _ _ (Forall_sort_byName _ _
                           (Forall_insert _ _ i c' Hbound Hheight)) Harr).
    rewrite sort_byName_Permutation.
    by apply flat_map_insert with c.
Qed.

Lemma GenerateManPages_census (n : nat) :
  forall (cmd : Node) (st : State) (c' : Command),
    height (node_self cmd) <= n ->
    (GenerateManPages cmd st).2 = Return c' ->
    forall above : list string,
      census above c' ≡ₚ census above (node_self cmd).
Proof.
  induction n as [|n IH]; intros cmd st c' Hheight Hrun above.
  - pose proof (height_positive (node_self cmd)). lia.
  - destruct (GenerateManPages_value cmd st c' Hrun)
      as (st1 & commands & Hloop & ->).
    rewrite (census_eq above (withCommands _ _)), (census_eq above (node_self cmd)).
    simpl. apply Permutation_skip.
    change (fun k => census (above ++ [cmd_Name (node_self cmd)]) k)
      with (census (above ++ [cmd_Name (node_self cmd)])).
    rewrite sort_byName_Permutation.
    apply (rangeCommands_census GenerateManPages cmd n) with
      (todo := List.length (cmd_commands (node_self cmd))) (i := 0) (st := st1).
    + intros arr c st' c'' Hc Hchild. split.
      * destruct (GenerateManPages_walked (child cmd arr c) st')
          as [_ _ _ _ _ Hh _].
        specialize (Hh c'' Hchild). simpl in Hh. lia.
      * intros above'. by apply (IH (child cmd arr c) st').
    + eapply Forall_impl; [apply height_children |]. simpl. intros k Hk. lia.
    + done.
Qed.

(** X14. What a run that returns leaves of the tree. The command is
    the command of the call with its slice in another order: the
    slice is sorted by name and holds the children of the command,
    each with the fields it had. The same goes for the whole tree: it
    holds the same commands under the same names as before, and
    nothing has changed but the order inside slices. *)
Theorem run_sorts_slice (cmd : Node) (st : State) (c' : Command) :
  (GenerateManPages cmd st).2 = Return c' ->
  (exists cs' : list Command,
     c' = withCommands (node_self cmd) cs'
     /\ StronglySorted byName cs'
     /\ bare <$> cs' ≡ₚ bare <$> cmd_commands (node_self cmd))
  /\ (forall above : list string,
        census above c' ≡ₚ census above (node_self cmd)).
Proof.
  intros Hrun. split.
  - destruct (GenerateManPages_value cmd st c' Hrun)
      as (st1 & commands & Hloop & ->).
    exists (sort_byName commands). split_and!.
    + done.
    + apply sort_byName_sorted.
    + rewrite sort_byName_Permutation.
      apply (rangeCommands_bare GenerateManPages cmd GenerateManPages_bare
               _ _ _ _ _ Hloop).
  - by apply (GenerateManPages_census (height (node_self cmd)) cmd st).
Qed.

End Frames.

Lemma run_sorts_slice_witness :
  (GenerateManPages (ext := standIn) (mkNode Example.unsorted [])
     (mkState Example.opts [])).2
  = Return (withCommands Example.unsorted
              (sort_byName (cmd_commands Example.unsorted)))
  /\ (exists cs' : list Command,
        withCommands Example.unsorted
          (sort_byName (cmd_commands Example.unsorted))
        = withCommands (node_self (mkNode Example.unsorted [])) cs'
        /\ StronglySorted byName cs'
        /\ bare <$> cs' ≡ₚ
           bare <$> cmd_commands (node_self (mkNode Example.unsorted [])))
     /\ (forall above : list string,
           census above
             (withCommands Example.unsorted
                (sort_byName (cmd_commands Example.unsorted)))
           ≡ₚ census above (node_self (mkNode Example.unsorted []))).
Proof.
  assert (Hrun :
            (GenerateManPages (ext := standIn) (mkNode Example.unsorted [])
               (mkState Example.opts [])).2
            = Return (withCommands Example.unsorted
                        (sort_byName (cmd_commands Example.unsorted))))
    by (by vm_compute).
  split; [exact Hrun |].
  exact (run_sorts_slice (ext := standIn) _ _ _ Hrun).
Defined.
